(** * openldap_exporter: the scrape engine of [scraper.go]

    A shallow embedding of the scrape engine: the query catalog, the
    attribute parsers (plain numeric and [contextCSN] replication token),
    the metric sink, one scrape cycle with its replication-delay check, and
    the scrape-outcome counter.

    Conventions.
    - Go strings are byte strings: [string] of [ascii].
    - [float64] is IEEE 754 binary64, here [spec_float] at precision 53 and
      maximal exponent 1024.
    - A run-time panic (index out of range) is the outcome [Panic]; there is
      no [recover] anywhere in the program, so a panic ends the process.
    - Mutable globals ([queries], the gauge vectors, [scrapeCounter]), the
      log and the network traffic are threaded explicitly.
    - What the directory servers answer during one cycle is a [World]. *)

From Stdlib Require Import ZArith String Ascii List Lia Bool.
From Stdlib Require Import Floats.SpecFloat.
From stdpp Require Import gmap strings list.

Import ListNotations.
Local Open Scope string_scope.
Local Open Scope Z_scope.

(** ** Outcomes of Go code that may panic *)

Inductive go (A : Type) : Type :=
| Done (a : A)
| Panic (msg : string).
Arguments Done {A} a.
Arguments Panic {A} msg.

#[global] Instance go_ret : MRet go := fun _ a => Done a.

#[global] Instance go_bind : MBind go := fun _ _ k m =>
  match m with
  | Done a => k a
  | Panic msg => Panic msg
  end.

(** A Go [error], by a text; the texts given to library errors here are
    short forms, the program only tests errors against [nil]. *)
Definition error := string.

(** [s[i]] on a slice of strings: a run-time panic when out of range. *)
Definition index (vb : list string) (i : nat) : go string :=
  match nth_error vb i with
  | Some x => Done x
  | None => Panic "runtime error: index out of range"
  end.

(** ** Package [strings] *)

Definition sharp : ascii := "#"%char.

(** [strings.Split(s, sep)] for a one-byte separator: the substrings
    between the separators, [n+1] of them for [n] separators. *)
Fixpoint Split (s : string) (sep : ascii) : list string :=
  match s with
  | EmptyString => [EmptyString]
  | String c s' =>
      if Ascii.eqb c sep then EmptyString :: Split s' sep
      else match Split s' sep with
           | f :: fs => String c f :: fs
           | [] => [String c EmptyString]
           end
  end.

(** ** Package [time]: [time.Parse] at the layout of the program

    The layout ["20060102150405.999999Z"] is cut by [nextStdChunk] into
    [stdLongYear], [stdZeroMonth], [stdZeroDay], [stdHour], [stdZeroMinute],
    [stdZeroSecond], [stdFracSecond9] (six digits) and the literal suffix
    ["Z"] (a lone [Z] is no zone element).  [Parse_layout] follows
    [time.Parse] through exactly these chunks. *)

Module time.

Record Time := mkTime {
  year : Z; month : Z; day : Z;
  hour : Z; min : Z; sec : Z; nsec : Z
}.

(** [Time{}]: January 1, year 1, 00:00:00 UTC. *)
Definition zero : Time := mkTime 1 1 1 0 0 0 0.

Definition isLeap (y : Z) : bool :=
  (y mod 4 =? 0) && (negb (y mod 100 =? 0) || (y mod 400 =? 0)).

Definition daysBefore (m : Z) : Z :=
  match m with
  | 1 => 0 | 2 => 31 | 3 => 59 | 4 => 90 | 5 => 120 | 6 => 151
  | 7 => 181 | 8 => 212 | 9 => 243 | 10 => 273 | 11 => 304 | 12 => 334
  | _ => 365
  end.

Definition daysIn (m y : Z) : Z :=
  if (m =? 2) && isLeap y then 29
  else daysBefore (m + 1) - daysBefore m.

(** Days from January 1 of year 1 to January 1 of year [y]. *)
Definition daysBeforeYear (y : Z) : Z :=
  365 * (y - 1) + (y - 1) / 4 - (y - 1) / 100 + (y - 1) / 400.

Definition unixEpochDays : Z := 719162.

(** [t.Unix()] of a time built by [Date(..., UTC)] from in-range fields. *)
Definition Unix (t : Time) : Z :=
  let d := daysBeforeYear (year t) + daysBefore (month t)
           + (if isLeap (year t) && (3 <=? month t) then 1 else 0)
           + (day t - 1) in
  (d - unixEpochDays) * 86400 + hour t * 3600 + min t * 60 + sec t.

Definition is_digit (c : ascii) : bool :=
  let n := nat_of_ascii c in (48 <=? n)%nat && (n <=? 57)%nat.

Definition digit (c : ascii) : Z := Z.of_nat (nat_of_ascii c) - 48.

(** [isDigit(s, i)] *)
Definition isDigit (s : string) (i : nat) : bool :=
  match String.get i s with
  | Some c => is_digit c
  | None => false
  end.

(** [commaOrPeriod(b)] *)
Definition commaOrPeriod (c : ascii) : bool :=
  Ascii.eqb c "."%char || Ascii.eqb c ","%char.

(** [s[n:]] for [n <= len(s)] *)
Fixpoint from (n : nat) (s : string) : string :=
  match n, s with
  | O, _ => s
  | S n', String _ s' => from n' s'
  | S _, EmptyString => EmptyString
  end.

(** [getnum(s, fixed)]: one or two digits, exactly two when [fixed]. *)
Definition getnum (s : string) (fixed : bool) : option (Z * string) :=
  match s with
  | String c0 s1 =>
      if negb (is_digit c0) then None
      else match s1 with
           | String c1 s2 =>
               if is_digit c1 then Some (digit c0 * 10 + digit c1, s2)
               else if fixed then None else Some (digit c0, s1)
           | EmptyString => if fixed then None else Some (digit c0, s1)
           end
  | EmptyString => None
  end.

(** The value of a string of decimal digits, [None] on any other byte:
    [atoi] on an unsigned argument. *)
Fixpoint atoi_acc (acc : Z) (s : string) : option Z :=
  match s with
  | EmptyString => Some acc
  | String c s' =>
      if is_digit c then atoi_acc (acc * 10 + digit c) s' else None
  end.

Definition atoi (s : string) : option Z :=
  match s with
  | EmptyString => None
  | _ => atoi_acc 0 s
  end.

(** [stdLongYear] *)
Definition getyear (s : string) : option (Z * string) :=
  if (String.length s <? 4)%nat || negb (isDigit s 0) then None
  else match atoi (String.substring 0 4 s) with
       | Some y => Some (y, from 4 s)
       | None => None
       end.

(** The number of leading decimal digits of [s]. *)
Fixpoint leadingDigits (s : string) : nat :=
  match s with
  | String c s' => if is_digit c then S (leadingDigits s') else O
  | EmptyString => O
  end.

(** [parseNanoseconds(value, nbytes)]: [value[0]] is the separator and
    [value[1:nbytes]] are digits; at most nine of them are used. *)
Definition parseNanoseconds (value : string) (nbytes : nat) : option Z :=
  match value with
  | String c _ =>
      if negb (commaOrPeriod c) then None
      else
        let nbytes := Nat.min nbytes 10 in
        match atoi (String.substring 1 (nbytes - 1) value) with
        | Some ns => Some (ns * 10 ^ Z.of_nat (10 - nbytes))
        | None => None
        end
  | EmptyString => None
  end.

(** [stdFracSecond9]: an optional separator followed by digits. *)
Definition getfrac (s : string) : option (Z * string) :=
  match s with
  | String c0 (String c1 _) =>
      if commaOrPeriod c0 && is_digit c1 then
        let i := leadingDigits (from 1 s) in
        match parseNanoseconds s (1 + i) with
        | Some ns => Some (ns, from (1 + i) s)
        | None => None
        end
      else Some (0, s)
  | _ => Some (0, s)
  end.

(** [time.Parse("20060102150405.999999Z", value)]: the parsed time, or
    [None] when Go returns a non-nil error (with [Time{}]). *)
Definition Parse_layout (value : string) : option Time :=
  match getyear value with
  | None => None
  | Some (y, v) =>
  match getnum v true with
  | None => None
  | Some (mo, v) =>
  if (mo <=? 0) || (12 <? mo) then None else
  match getnum v true with
  | None => None
  | Some (d, v) =>
  match getnum v false with
  | None => None
  | Some (h, v) =>
  if (h <? 0) || (24 <=? h) then None else
  match getnum v true with
  | None => None
  | Some (mi, v) =>
  if (mi <? 0) || (60 <=? mi) then None else
  match getnum v true with
  | None => None
  | Some (s, v) =>
  if (s <? 0) || (60 <=? s) then None else
  match getfrac v with
  | None => None
  | Some (ns, v) =>
  match v with
  | String c EmptyString =>
      if Ascii.eqb c "Z"%char then
        if (d <? 1) || (daysIn mo y <? d) then None
        else Some (mkTime y mo d h mi s ns)
      else None
  | _ => None
  end end end end end end end end.

(** [t, err := time.Parse(layout, value)] as the pair Go returns. *)
Definition Parse (value : string) : Time * option error :=
  match Parse_layout value with
  | Some t => (t, None)
  | None => (zero, Some "parsing time: cannot parse value as layout")
  end.

End time.

(** ** [float64] *)

Definition float64 : Type := spec_float.

(** [float64(n)] for an integer [n]: round to nearest, ties to even. *)
Definition float64_of_int (n : Z) : float64 := binary_normalize 53 1024 n 0 false.

(** [x - y] on [float64]. *)
Definition float64_sub (x y : float64) : float64 := SFsub 53 1024 x y.

(** The zero value of [float64]. *)
Definition float64_zero : float64 := S754_zero false.

(** ** Package [logrus]: the log as a list of entries, oldest first *)

Inductive Level := InfoLevel | WarnLevel | ErrorLevel.

Definition Fields := list (string * string).

Record LogEntry := mkLogEntry {
  level : Level;
  fields : Fields;
  message : string
}.

(** [WithError(err)] adds the field ["error"]. *)
Definition WithError (err : error) (f : Fields) : Fields := (f ++ [("error", err)])%list.

Definition WithField (k v : string) (f : Fields) : Fields := (f ++ [(k, v)])%list.

(** ** Package [ldap]: search results *)

Record EntryAttribute := mkAttr { Name : string; Values : list string }.

Record Entry := mkEntry { DN : string; Attributes : list EntryAttribute }.

(** [e.GetAttributeValues(attribute)]: the values of the first attribute of
    that name. *)
Fixpoint GetAttributeValues (attrs : list EntryAttribute) (attribute : string)
  : list string :=
  match attrs with
  | [] => []
  | a :: rest =>
      if String.eqb (Name a) attribute then Values a
      else GetAttributeValues rest attribute
  end.

(** [e.GetAttributeValue(attribute)]: its first value, or [""]. *)
Definition GetAttributeValue (e : Entry) (attribute : string) : string :=
  match GetAttributeValues (Attributes e) attribute with
  | [] => ""
  | v :: _ => v
  end.

Inductive result (A : Type) : Type :=
| Ok (a : A)
| Err (e : error).
Arguments Ok {A} a.
Arguments Err {A} e.

(** The two connections of a cycle. *)
Inductive Conn := conn | masterConn.

(** What goes over the network, in order. *)
Inductive NetEvent :=
| Dial (net addr : string)
| Bind (c : Conn) (user pass : string)
| Search (c : Conn) (base filter attr : string)
| Close (c : Conn).

(** What the directory servers answer during one cycle.  The answers to the
    searches and to the primary's dial and bind are given per position of
    the query in the catalog, so that two equal requests may be answered
    differently. *)
Record World := mkWorld {
  dial : option error;
  bind : option error;
  search : nat -> result (list Entry);
  masterDial : nat -> option error;
  masterBind : nat -> option error;
  masterSearch : nat -> result (list Entry)
}.

(** ** Constants *)

Definition baseDN := "cn=Monitor".
Definition opsBaseDN := "cn=Operations,cn=Monitor".
Definition monitorCounterObject := "monitorCounterObject".
Definition monitorCounter := "monitorCounter".
Definition monitoredObject := "monitoredObject".
Definition monitoredInfo := "monitoredInfo".
Definition monitorOperation := "monitorOperation".
Definition monitorOpCompleted := "monitorOpCompleted".
Definition monitorReplicationFilter := "contextCSN".
Definition monitorReplication := "monitorReplication".

(** [fmt.Sprintf("(objectClass=%v)", name)] *)
Definition objectClass (name : string) : string := "(objectClass=" ++ name ++ ")".

(** ** The metric sink *)

(** The four gauge vectors of the program. *)
Inductive GaugeVec :=
| monitoredObjectGauge
| monitorCounterObjectGauge
| monitorOperationGauge
| monitorReplicationGauge.

(** Their fully qualified names (subsystem and name). *)
Definition fqName (g : GaugeVec) : string :=
  match g with
  | monitoredObjectGauge => "openldap_monitored_object"
  | monitorCounterObjectGauge => "openldap_monitor_counter_object"
  | monitorOperationGauge => "openldap_monitor_operation"
  | monitorReplicationGauge => "openldap_monitor_replication"
  end.

(** The functions a descriptor's [setData] may point to. *)
Inductive setDataFunc := fn_setValue | fn_setReplicationValue | fn_setReplicationDelayValue.

Record query := mkQuery {
  q_baseDN : string;
  searchFilter : string;
  searchAttr : string;
  metric : GaugeVec;
  setData : setDataFunc;
  RepolicateResult : float64
}.

(** The process state next to the catalog: the gauge points by metric name
    and label values, [scrapeCounter] by label value, the log and the
    network traffic. *)
Record Env := mkEnv {
  gauges : gmap (string * list string) float64;
  scrapeCounter : gmap string nat;
  logs : list LogEntry;
  net : list NetEvent
}.

Definition emptyEnv : Env := mkEnv ∅ ∅ [] [].

(** [g.WithLabelValues(lvs...).Set(v)]: last write wins. *)
Definition Set_ (g : GaugeVec) (lvs : list string) (v : float64) (st : Env) : Env :=
  mkEnv (<[(fqName g, lvs) := v]> (gauges st)) (scrapeCounter st) (logs st) (net st).

(** The current point of a gauge vector at the given label values. *)
Definition point (st : Env) (g : GaugeVec) (lvs : list string) : option float64 :=
  gauges st !! (fqName g, lvs).

(** The current value of [scrapeCounter] at a label value. *)
Definition counted (st : Env) (l : string) : nat := default 0%nat (scrapeCounter st !! l).

(** [scrapeCounter.WithLabelValues(l).Inc()] *)
Definition Inc (l : string) (st : Env) : Env :=
  mkEnv (gauges st) (<[l := S (counted st l)]> (scrapeCounter st)) (logs st) (net st).

Definition Log (lv : Level) (f : Fields) (msg : string) (st : Env) : Env :=
  mkEnv (gauges st) (scrapeCounter st) (logs st ++ [mkLogEntry lv f msg])%list (net st).

Definition Send (ev : NetEvent) (st : Env) : Env :=
  mkEnv (gauges st) (scrapeCounter st) (logs st) (net st ++ [ev])%list.

(** The static catalog, [queries] as initialised. *)
Definition queries : list query :=
  [ mkQuery baseDN (objectClass monitoredObject) monitoredInfo
      monitoredObjectGauge fn_setValue float64_zero;
    mkQuery baseDN (objectClass monitorCounterObject) monitorCounter
      monitorCounterObjectGauge fn_setValue float64_zero;
    mkQuery opsBaseDN (objectClass monitorOperation) monitorOpCompleted
      monitorOperationGauge fn_setValue float64_zero;
    mkQuery opsBaseDN (objectClass monitorOperation) monitorOpCompleted
      monitorOperationGauge fn_setValue float64_zero ].

Record Scraper := mkScraper {
  Net : string;
  Addr : string;
  User : string;
  Pass : string;
  Tick : Z;
  LdapSync : list string;
  Sync : list string;
  LdapSyncTimeDetal : bool;
  LdapSyncMasterAddr : string
}.

(** [s.log]: the logger with the field [component] set by [Start]. *)
Definition s_log : Fields := [("component", "scraper")].

(** The mutable globals: the catalog and the rest. *)
Record State := mkState {
  catalog : list query;
  env : Env
}.

(** Storing [v] into [q.RepolicateResult]. *)
Definition set_RepolicateResult (v : float64) (q : query) : query :=
  mkQuery (q_baseDN q) (searchFilter q) (searchAttr q) (metric q) (setData q) v.

(** ** The program *)

Section Program.

(** [strconv.ParseFloat(s, 64)]: the value and the error Go returns. *)
Variable ParseFloat : string -> float64 * option error.

Fixpoint setValue (entries : list Entry) (q : query) (st : Env) : Env :=
  match entries with
  | [] => st
  | entry :: entries' =>
      let val := GetAttributeValue entry (searchAttr q) in
      if String.eqb val "" then setValue entries' q st
      else
        let '(num, err) := ParseFloat val in
        match err with
        | Some _ => setValue entries' q st
        | None => setValue entries' q (Set_ (metric q) [DN entry] num st)
        end
  end.

(** The named results [(gt, count, sid, mod, err)] of [parseContextCSN]. *)
Definition csn : Type := float64 * float64 * string * float64 * option error.

Definition parseContextCSN (val : string) (fields : Fields) (st : Env)
  : go (csn * Env) :=
  let valueBuffer := Split val sharp in
  v0 ← index valueBuffer 0;
  let '(t, err) := time.Parse v0 in
  let gt := float64_of_int (time.Unix t) in
  match err with
  | Some e =>
      Done ((gt, float64_zero, "", float64_zero, Some e),
            Log WarnLevel (WithError e fields) "unexpected gt value" st)
  | None =>
      v1 ← index valueBuffer 1;
      let '(count, err) := ParseFloat v1 in
      match err with
      | Some e =>
          Done ((gt, count, "", float64_zero, Some e),
                Log WarnLevel (WithError e fields) "unexpected count value" st)
      | None =>
          sid ← index valueBuffer 2;
          v3 ← index valueBuffer 3;
          let '(mod_, err) := ParseFloat v3 in
          match err with
          | Some e =>
              Done ((gt, count, sid, mod_, Some e),
                    Log WarnLevel (WithError e fields) "unexpected mod value" st)
          | None => Done ((gt, count, sid, mod_, None), st)
          end
      end
  end.

(** The [log.Fields] built for an attribute value. *)
Definition valueFields (q : query) (val : string) : Fields :=
  [("filter", searchFilter q); ("attr", searchAttr q); ("value", val)].

Fixpoint setReplicationValue (entries : list Entry) (q : query) (st : Env)
  : go (query * Env) :=
  match entries with
  | [] => Done (q, st)
  | entry :: entries' =>
      let val := GetAttributeValue entry (searchAttr q) in
      if String.eqb val "" then setReplicationValue entries' q st
      else
        '(gt, count, sid, mod_, err, st) ← parseContextCSN val (valueFields q val) st;
        match err with
        | Some _ => setReplicationValue entries' q st
        | None =>
            let q := set_RepolicateResult gt q in
            let st := Set_ (metric q) [sid; "gt"] gt st in
            let st := Set_ (metric q) [sid; "count"] count st in
            let st := Set_ (metric q) [sid; "mod"] mod_ st in
            setReplicationValue entries' q st
        end
  end.

Fixpoint setReplicationDelayValue (entries : list Entry) (q : query) (st : Env)
  : go Env :=
  match entries with
  | [] => Done st
  | entry :: entries' =>
      let val := GetAttributeValue entry (searchAttr q) in
      if String.eqb val "" then setReplicationDelayValue entries' q st
      else
        let valueBuffer := Split val sharp in
        v0 ← index valueBuffer 0;
        let '(gt, err) := time.Parse v0 in
        match err with
        | Some e =>
            setReplicationDelayValue entries' q
              (Log WarnLevel (WithError e (valueFields q val)) "unexpected gt value" st)
        | None =>
            sid ← index valueBuffer 2;
            setReplicationDelayValue entries' q
              (Set_ (metric q) [sid; "gt"] (float64_of_int (time.Unix gt)) st)
        end
  end.

(** [q.setData(entries, q)] *)
Definition call_setData (entries : list Entry) (q : query) (st : Env)
  : go (query * Env) :=
  match setData q with
  | fn_setValue => Done (q, setValue entries q st)
  | fn_setReplicationValue => setReplicationValue entries q st
  | fn_setReplicationDelayValue =>
      st ← setReplicationDelayValue entries q st; Done (q, st)
  end.

(** The descriptor [addReplicationQueries] builds for a peer. *)
Definition replicationQuery (b : string) : query :=
  mkQuery b (objectClass "*") monitorReplicationFilter
    monitorReplicationGauge fn_setReplicationValue float64_zero.

(** [s.addReplicationQueries()] on the global [queries]. *)
Definition addReplicationQueries (s : Scraper) (qs : list query) : list query :=
  fold_left (fun qs q => (qs ++ [replicationQuery q])%list) (Sync s) qs.

(** [s.scrapeQuery(conn, q)] for the query at position [k]. *)
Definition scrapeQuery (w : World) (k : nat) (q : query) (st : Env)
  : go (option error * query * Env) :=
  let st := Send (Search conn (q_baseDN q) (searchFilter q) (searchAttr q)) st in
  match search w k with
  | Err e => Done (Some e, q, st)
  | Ok entries =>
      '(q, st) ← call_setData entries q st;
      Done (None, q, st)
  end.

(** [s.queryMasterContext(q)] for the query at position [k]. *)
Definition queryMasterContext (s : Scraper) (w : World) (k : nat) (q : query)
  (st : Env) : result (list Entry) * Env :=
  let st := Send (Dial (Net s) (LdapSyncMasterAddr s)) st in
  match masterDial w k with
  | Some e => (Err e, Log ErrorLevel (WithError e s_log) "dial master node failed" st)
  | None =>
      let st := Send (Bind masterConn (User s) (Pass s)) st in
      match masterBind w k with
      | Some e =>
          (Err e,
           Send (Close masterConn)
             (Log ErrorLevel (WithError e s_log) "bind master failed" st))
      | None =>
          let st := Send (Search masterConn (q_baseDN q) (searchFilter q) (searchAttr q)) st in
          (masterSearch w k, Send (Close masterConn) st)
      end
  end.

(** How one round of the loop of [scrape] ends. *)
Inductive flow :=
| Continue (ret : bool)
| Return (b : bool).

(** The part of the loop body under "add replicate nodes delay to master
    metrics". *)
Definition delayCheck (s : Scraper) (w : World) (k : nat) (q : query)
  (ret : bool) (st : Env) : go (flow * Env) :=
  if String.eqb (searchAttr q) monitorReplicationFilter then
    if LdapSyncTimeDetal s then
      let '(sr, st) := queryMasterContext s w k q st in
      match sr with
      | Err e =>
          Done (Return false,
                Log ErrorLevel (WithError e s_log) "query master context error" st)
      | Ok [] =>
          Done (Return false,
                Log ErrorLevel s_log "get master context csn error ,result empty" st)
      | Ok (entry :: _) =>
          let val := GetAttributeValue entry (searchAttr q) in
          if String.eqb val "" then Done (Continue ret, st)
          else
            let valueBuffer := Split val sharp in
            v0 ← index valueBuffer 0;
            let '(gt, err) := time.Parse v0 in
            match err with
            | Some e =>
                Done (Return false,
                      Log ErrorLevel (WithError e s_log)
                        ("time parser error,value=%s" ++ v0) st)
            | None =>
                sid ← index valueBuffer 2;
                Done (Continue ret,
                      Set_ (metric q) [sid; "delay"]
                        (float64_sub (float64_of_int (time.Unix gt))
                                     (RepolicateResult q)) st)
            end
      end
    else Done (Continue ret, st)
  else Done (Continue ret, st).

(** The body of the loop of [scrape] for the query at position [k]. *)
Definition scrapeBody (s : Scraper) (w : World) (k : nat) (q : query)
  (ret : bool) (st : Env) : go (flow * query * Env) :=
  '(err, q, st) ← scrapeQuery w k q st;
  let '(ret, st) :=
    match err with
    | Some e =>
        (false,
         Log WarnLevel
           (WithField "base_dn" (q_baseDN q)
              (WithField "filter" (searchFilter q) (WithError e s_log)))
           "query failed" st)
    | None => (ret, st)
    end in
  '(fl, st) ← delayCheck s w k q ret st;
  Done (fl, q, st).

(** [for _, q := range queries { ... }] from position [k] on: how the
    loop is left ([Continue ret] when it runs to its end with the local
    [ret]) and the descriptors as it leaves them. *)
Fixpoint scrapeLoop (s : Scraper) (w : World) (k : nat) (qs : list query)
  (ret : bool) (st : Env) : go (flow * list query * Env) :=
  match qs with
  | [] => Done (Continue ret, [], st)
  | q :: qs' =>
      '(fl, q, st) ← scrapeBody s w k q ret st;
      match fl with
      | Return b => Done (Return b, q :: qs', st)
      | Continue ret =>
          '(fl, qs', st) ← scrapeLoop s w (S k) qs' ret st;
          Done (fl, q :: qs', st)
      end
  end.

(** The value [scrape] returns after the loop: the early [return], or
    [return ret]. *)
Definition returned (fl : flow) : bool :=
  match fl with
  | Continue ret => ret
  | Return b => b
  end.

(** [ldap.Dial], and [conn.Bind] when both credentials are non-empty:
    the state when the loop starts, or the state in which [scrape]
    returns [false]. *)
Definition connect (s : Scraper) (w : World) (st : Env) : Env + Env :=
  let st := Send (Dial (Net s) (Addr s)) st in
  match dial w with
  | Some e => inr (Log ErrorLevel (WithError e s_log) "dial failed" st)
  | None =>
      if negb (String.eqb (User s) "") && negb (String.eqb (Pass s) "") then
        let st := Send (Bind conn (User s) (Pass s)) st in
        match bind w with
        | Some e =>
            inr (Send (Close conn)
                   (Log ErrorLevel (WithError e s_log) "bind failed" st))
        | None => inl st
        end
      else inl st
  end.

(** [s.scrape()] *)
Definition scrape (s : Scraper) (w : World) (qs : list query) (st : Env)
  : go (bool * list query * Env) :=
  match connect s w st with
  | inr st => Done (false, qs, st)
  | inl st =>
      '(fl, qs, st) ← scrapeLoop s w 0 qs true st;
      Done (returned fl, qs, Send (Close conn) st)
  end.

(** [s.runOnce()] *)
Definition runOnce (s : Scraper) (w : World) (g : State) : go State :=
  '(b, qs, st) ← scrape s w (catalog g) (env g);
  let result := if (b : bool) then "ok" else "fail" in
  Done (mkState qs (Inc result st)).

(** The ticks of [Start]'s loop, one [World] each, until [ctx.Done()]. *)
Fixpoint ticks (s : Scraper) (ws : list World) (g : State) : go State :=
  match ws with
  | [] => Done g
  | w :: ws' => g ← runOnce s w g; ticks s ws' g
  end.

(** [s.Start(ctx)], cancelled after the ticks [ws]. *)
Definition Start (s : Scraper) (ws : list World) (g : State) : go State :=
  let qs := addReplicationQueries s (catalog g) in
  let st := Log InfoLevel (WithField "addr" (Net s ++ "://" ++ Addr s) s_log)
              "starting monitor loop" (env g) in
  ticks s ws (mkState qs st).

End Program.

(** ** Package [strconv]: [ParseFloat(s, 64)]

    [special] and [readFloat] as in the Go library; the conversion of the
    digits read is done in exact arithmetic and rounded once, to nearest
    even, which is the result Go guarantees. *)

Module strconv.

Definition ErrSyntax : error := "invalid syntax".
Definition ErrRange : error := "value out of range".

(** [lower(c)]: [c | ('x' - 'X')] *)
Definition lower (c : ascii) : ascii :=
  ascii_of_nat (Nat.lor (nat_of_ascii c) 32).

Definition is_hexletter (c : ascii) : bool :=
  let n := nat_of_ascii (lower c) in (97 <=? n)%nat && (n <=? 102)%nat.

(** [commonPrefixLenIgnoreCase(s, prefix)] for a lower-case [prefix] *)
Fixpoint commonPrefixLenIgnoreCase (s prefix : string) : nat :=
  match s, prefix with
  | String c s', String p prefix' =>
      let n := nat_of_ascii c in
      let c := if (65 <=? n)%nat && (n <=? 90)%nat then ascii_of_nat (n + 32) else c in
      if Ascii.eqb c p then S (commonPrefixLenIgnoreCase s' prefix') else O
  | _, _ => O
  end.

Definition Inf (sign : bool) : float64 := S754_infinity sign.
Definition NaN : float64 := S754_nan.

Definition infinityPrefix (s : string) : option nat :=
  let n := commonPrefixLenIgnoreCase s "infinity" in
  let n := if (3 <? n)%nat && (n <? 8)%nat then 3%nat else n in
  if (n =? 3)%nat || (n =? 8)%nat then Some n else None.

(** [special(s)]: the value and the number of bytes used. *)
Definition special (s : string) : option (float64 * nat) :=
  match s with
  | EmptyString => None
  | String c s' =>
      if Ascii.eqb c "+"%char || Ascii.eqb c "-"%char then
        match infinityPrefix s' with
        | Some n => Some (Inf (Ascii.eqb c "-"%char), S n)
        | None => None
        end
      else if Ascii.eqb c "i"%char || Ascii.eqb c "I"%char then
        match infinityPrefix s with
        | Some n => Some (Inf false, n)
        | None => None
        end
      else if Ascii.eqb c "n"%char || Ascii.eqb c "N"%char then
        if (commonPrefixLenIgnoreCase s "nan" =? 3)%nat then Some (NaN, 3%nat) else None
      else None
  end.

(** The variables of the digit loop of [readFloat]; the mantissa keeps
    every digit. *)
Record scan := mkScan {
  mantissa : Z; nd : Z; dp : Z;
  sawdot : bool; sawdigits : bool; underscores : bool
}.

Fixpoint readDigits (hex : bool) (s : string) (a : scan) : scan * string :=
  match s with
  | EmptyString => (a, s)
  | String c s' =>
      if Ascii.eqb c "_"%char then
        readDigits hex s' (mkScan (mantissa a) (nd a) (dp a) (sawdot a) (sawdigits a) true)
      else if Ascii.eqb c "."%char then
        if sawdot a then (a, s)
        else readDigits hex s'
               (mkScan (mantissa a) (nd a) (nd a) true (sawdigits a) (underscores a))
      else if time.is_digit c then
        if Ascii.eqb c "0"%char && (nd a =? 0) then
          readDigits hex s'
            (mkScan (mantissa a) (nd a) (dp a - 1) (sawdot a) true (underscores a))
        else
          readDigits hex s'
            (mkScan (mantissa a * (if hex then 16 else 10) + time.digit c)
               (nd a + 1) (dp a) (sawdot a) true (underscores a))
      else if hex && is_hexletter c then
        readDigits hex s'
          (mkScan (mantissa a * 16 + (Z.of_nat (nat_of_ascii (lower c)) - 97 + 10))
             (nd a + 1) (dp a) (sawdot a) true (underscores a))
      else (a, s)
  end.

(** The digits of the exponent: its value, capped as in Go, whether an
    underscore was seen, and the rest. *)
Fixpoint readExp (s : string) (e : Z) (us : bool) : Z * bool * string :=
  match s with
  | String c s' =>
      if Ascii.eqb c "_"%char then readExp s' e true
      else if time.is_digit c then
        readExp s' (if e <? 10000 then e * 10 + time.digit c else e) us
      else (e, us, s)
  | EmptyString => (e, us, s)
  end.

(** [underscoreOK(s)] *)
Fixpoint underscoreLoop (hex : bool) (saw : ascii) (s : string) : bool :=
  match s with
  | EmptyString => negb (Ascii.eqb saw "_"%char)
  | String c s' =>
      if time.is_digit c || (hex && is_hexletter c) then underscoreLoop hex "0"%char s'
      else if Ascii.eqb c "_"%char then
        if negb (Ascii.eqb saw "0"%char) then false else underscoreLoop hex "_"%char s'
      else if Ascii.eqb saw "_"%char then false
      else underscoreLoop hex "!"%char s'
  end.

Definition underscoreOK (s : string) : bool :=
  let s := match s with
           | String c s' =>
               if Ascii.eqb c "-"%char || Ascii.eqb c "+"%char then s' else s
           | EmptyString => s
           end in
  match s with
  | String c0 (String c1 s2) =>
      let l := lower c1 in
      if Ascii.eqb c0 "0"%char
         && (Ascii.eqb l "b"%char || Ascii.eqb l "o"%char || Ascii.eqb l "x"%char)
      then underscoreLoop (Ascii.eqb l "x"%char) "0"%char s2
      else underscoreLoop false "^"%char s
  | _ => underscoreLoop false "^"%char s
  end.

(** What [readFloat] finds: the digits as an integer, the exponent of the
    base for them, the sign, the base and the rest of the string. *)
Record number := mkNumber {
  digits : Z; exponent : Z; neg : bool; hex : bool; rest : string
}.

Definition readFloat (s : string) : option number :=
  match s with
  | EmptyString => None
  | String c s' =>
      let '(neg, s1) :=
        if Ascii.eqb c "+"%char then (false, s')
        else if Ascii.eqb c "-"%char then (true, s')
        else (false, s) in
      let '(hex, s2) :=
        match s1 with
        | String c0 (String c1 ((String _ _) as s3)) =>
            if Ascii.eqb c0 "0"%char && Ascii.eqb (lower c1) "x"%char
            then (true, s3) else (false, s1)
        | _ => (false, s1)
        end in
      let '(a, s3) := readDigits hex s2 (mkScan 0 0 0 false false false) in
      if negb (sawdigits a) then None
      else
        let dp := if sawdot a then dp a else nd a in
        let scale := if hex then 4 else 1 in
        let expChar := if hex then "p"%char else "e"%char in
        let finish (dp : Z) (us : bool) (r : string) :=
          let consumed := String.substring 0 (String.length s - String.length r) s in
          if us && negb (underscoreOK consumed) then None
          else Some (mkNumber (mantissa a) (dp - nd a * scale) neg hex r) in
        match s3 with
        | String ce s4 =>
            if Ascii.eqb (lower ce) expChar then
              match s4 with
              | EmptyString => None
              | String cs s5 =>
                  let '(esign, s6) :=
                    if Ascii.eqb cs "+"%char then (1, s5)
                    else if Ascii.eqb cs "-"%char then (-1, s5)
                    else (1, s4) in
                  match s6 with
                  | String cd _ =>
                      if time.is_digit cd then
                        let '(e, us, r) := readExp s6 0 (underscores a) in
                        finish (dp * scale + e * esign) us r
                      else None
                  | EmptyString => None
                  end
              end
            else if hex then None
            else finish (dp * scale) (underscores a) s3
        | EmptyString =>
            if hex then None else finish (dp * scale) (underscores a) s3
        end
  end.

(** The [float64] nearest to [m * base ^ e], ties to even. *)
Definition round (m e : Z) (hex neg : bool) : float64 :=
  let m := if neg then - m else m in
  if hex then binary_normalize 53 1024 m e neg
  else if 0 <=? e then binary_normalize 53 1024 (m * 10 ^ e) 0 neg
  else
    let d := 10 ^ (- e) in
    let k := 64 + Z.log2_up d in
    let q := (Z.abs m * 2 ^ k) / d in
    let sticky := if (Z.abs m * 2 ^ k) mod d =? 0 then 0 else 1 in
    let n := 2 * q + sticky in
    binary_normalize 53 1024 (if neg then - n else n) (- k - 1) neg.

(** [strconv.ParseFloat(s, 64)] *)
Definition ParseFloat (s : string) : float64 * option error :=
  match special s with
  | Some (f, n) =>
      if (n =? String.length s)%nat then (f, None)
      else (float64_zero, Some ErrSyntax)
  | None =>
      match readFloat s with
      | None => (float64_zero, Some ErrSyntax)
      | Some x =>
          match rest x with
          | EmptyString =>
              let f := round (digits x) (exponent x) (hex x) (neg x) in
              match f with
              | S754_infinity _ => (f, Some ErrRange)
              | _ => (f, None)
              end
          | _ => (float64_zero, Some ErrSyntax)
          end
      end
  end.

End strconv.

(** ** Notions used in the statements *)

(** No byte of [s] is the separator. *)
Fixpoint no_sep (sep : ascii) (s : string) : bool :=
  match s with
  | EmptyString => true
  | String c s' => negb (Ascii.eqb c sep) && no_sep sep s'
  end.

(** The bytes a generalized time is made of: digits, the decimal
    separators and the final [Z]. *)
Definition timeByte (c : ascii) : bool :=
  time.is_digit c || time.commaOrPeriod c || Ascii.eqb c "Z"%char.

Fixpoint timeBytes (s : string) : bool :=
  match s with
  | EmptyString => true
  | String c s' => timeByte c && timeBytes s'
  end.

(** [m * 2 ^ n] for [0 <= n]. *)
Definition shl (m : positive) (n : Z) : positive :=
  match n with
  | Zpos p => Pos.iter xO m p
  | _ => m
  end.

(** The [float64] of sign [s] and integer magnitude [m < 2^53], normalised. *)
Definition canon (s : bool) (m : positive) : float64 :=
  S754_finite s (shl m (53 - Zpos (Pos.size m))) (Zpos (Pos.size m) - 53).

(** The value cached on a descriptor is a number of epoch seconds, of the
    years 0 to 9999 that a generalized time can name. *)
Definition cachesEpoch (q : query) (E : Z) : Prop :=
  RepolicateResult q = float64_of_int E /\ Z.abs E < 2 ^ 39.

(** The token ["T#C#S#M"]. *)
Definition token (T C S M : string) : string :=
  T ++ String sharp (C ++ String sharp (S ++ String sharp M)).

(** The generalized-time format in the words of the specification: 14
    digits, optional fractional seconds, trailing [Z]. *)
Fixpoint allDigits (s : string) : bool :=
  match s with
  | EmptyString => true
  | String c s' => time.is_digit c && allDigits s'
  end.

(** Digits up to a final [Z]. *)
Fixpoint digitsZ (s : string) : bool :=
  match s with
  | EmptyString => false
  | String c s' =>
      match s' with
      | EmptyString => Ascii.eqb c "Z"%char
      | String _ _ => time.is_digit c && digitsZ s'
      end
  end.

(** What follows the 14 digits: the [Z], or a decimal separator and one or
    more digits before it. *)
Definition fractionZ (s : string) : bool :=
  match s with
  | String c EmptyString => Ascii.eqb c "Z"%char
  | String c (String d r) => time.commaOrPeriod c && time.is_digit d && digitsZ r
  | EmptyString => false
  end.

Definition generalizedTime (T : string) : bool :=
  (String.length (substring 0 14 T) =? 14)%nat
  && allDigits (substring 0 14 T)
  && fractionZ (time.from 14 T).

(** The number a string of decimal digits writes. *)
Definition number (s : string) : Z :=
  fold_left (fun n c => n * 10 + time.digit c) (list_ascii_of_string s) 0.

(** The fields [YYYYMMDDhhmmss] of a string of the format, as a time on
    the full second. *)
Definition fieldsOf (T : string) : time.Time :=
  time.mkTime (number (substring 0 4 T)) (number (substring 4 2 T))
    (number (substring 6 2 T)) (number (substring 8 2 T))
    (number (substring 10 2 T)) (number (substring 12 2 T)) 0.

(** The fields name a second of the calendar: a month of the year, a day
    of that month in that year, and an hour, a minute and a second of the
    clock. *)
Definition calendarSecond (t : time.Time) : bool :=
  (1 <=? time.month t) && (time.month t <=? 12)
  && (1 <=? time.day t) && (time.day t <=? time.daysIn (time.month t) (time.year t))
  && (time.hour t <=? 23) && (time.min t <=? 59) && (time.sec t <=? 59).

(** The search of the query at position [k] fails. *)
Definition searchFails (w : World) (k : nat) : bool :=
  match search w k with
  | Err _ => true
  | Ok _ => false
  end.

(** The cross-check of the query [q] at position [k] against the primary
    fails: the dial, the bind or the search fails, the result is empty, or
    the first entry carries a value whose first field does not parse as
    generalized time. *)
Definition primaryCheckFails (w : World) (k : nat) (q : query) : bool :=
  match masterDial w k, masterBind w k, masterSearch w k with
  | Some _, _, _ => true
  | None, Some _, _ => true
  | None, None, Err _ => true
  | None, None, Ok [] => true
  | None, None, Ok (entry :: _) =>
      let val := GetAttributeValue entry (searchAttr q) in
      negb (String.eqb val "")
      && match Split val sharp with
         | v0 :: _ => match time.Parse_layout v0 with Some _ => false | None => true end
         | [] => false
         end
  end.

(** The query is one the delay check applies to, and delay checking is on. *)
Definition delayChecked (s : Scraper) (q : query) : bool :=
  String.eqb (searchAttr q) monitorReplicationFilter && LdapSyncTimeDetal s.

(** A descriptor without its cached value. *)
Definition descr (q : query) : string * string * string * GaugeVec * setDataFunc :=
  (q_baseDN q, searchFilter q, searchAttr q, metric q, setData q).

(** [st'] is [st] after more gauge writes, log entries and network events:
    the scrape counter is the same and the log and the traffic have grown
    at their ends. *)
Definition extends (st st' : Env) : Prop :=
  scrapeCounter st' = scrapeCounter st
  /\ (exists l, logs st' = (logs st ++ l)%list)
  /\ (exists n, net st' = (net st ++ n)%list).

(** Every descriptor of the catalog caches a number of epoch seconds. *)
Definition catalogCaches (qs : list query) : Prop :=
  Forall (fun q => exists E, cachesEpoch q E) qs.

(** The warning of [scrape] for a failed search of [q]. *)
Definition queryFailed (q : query) (e : error) : LogEntry :=
  mkLogEntry WarnLevel
    [("component", "scraper"); ("error", e);
     ("filter", searchFilter q); ("base_dn", q_baseDN q)]
    "query failed".

(** The descriptors of the catalog that query the replication token of
    the peer [p]. *)
Definition replicationDescriptors (p : string) (qs : list query) : list query :=
  List.filter
    (fun q => String.eqb (q_baseDN q) p && String.eqb (searchAttr q) monitorReplicationFilter)
    qs.

(** The static descriptor of the per-operation completion counts. *)
Definition operationsQuery : query :=
  mkQuery opsBaseDN (objectClass monitorOperation) monitorOpCompleted
    monitorOperationGauge fn_setValue float64_zero.

(** The static descriptors of the monitored objects and of the counter
    objects. *)
Definition objectsQuery : query :=
  mkQuery baseDN (objectClass monitoredObject) monitoredInfo
    monitoredObjectGauge fn_setValue float64_zero.

Definition countersQuery : query :=
  mkQuery baseDN (objectClass monitorCounterObject) monitorCounter
    monitorCounterObjectGauge fn_setValue float64_zero.

(** The search request of a descriptor on the main connection. *)
Definition request (q : query) : NetEvent :=
  Search conn (q_baseDN q) (searchFilter q) (searchAttr q).

Section Notions.

Variable ParseFloat : string -> float64 * option error.


(** The state after the round of the loop for a plain numeric query [q] at
    position [k]: the search, then the parse of its entries or the warning. *)
Definition plainRound (w : World) (k : nat) (q : query) (st : Env) : Env :=
  match search w k with
  | Ok entries => setValue ParseFloat entries q (Send (request q) st)
  | Err e => Log WarnLevel (fields (queryFailed q e)) "query failed" (Send (request q) st)
  end.

End Notions.

(** ** A deployment used in the examples *)

Definition peer : string := "dc=example,dc=com".

(** An entry of the peer's subtree with the given [contextCSN] value. *)
Definition csnEntry (val : string) : Entry :=
  mkEntry peer [mkAttr monitorReplicationFilter [val]].

(** One replication peer, no credentials, no delay checking. *)
Definition exporter : Scraper :=
  mkScraper "tcp" "localhost:389" "" "" 5 [] [peer] false "primary:389".

(** Every dial and bind succeeds and every search finds nothing. *)
Definition quiet : World :=
  mkWorld None None (fun _ => Ok []) (fun _ => None) (fun _ => None) (fun _ => Ok []).

(** As [quiet], but the search of the query at position [k] finds [entries]. *)
Definition finding (k : nat) (entries : list Entry) : World :=
  mkWorld None None (fun i => if Nat.eqb i k then Ok entries else Ok [])
    (fun _ => None) (fun _ => None) (fun _ => Ok []).

(** As [quiet], but the search of the query at position [k] fails. *)
Definition refusing (k : nat) (e : error) : World :=
  mkWorld None None (fun i => if Nat.eqb i k then Err e else Ok [])
    (fun _ => None) (fun _ => None) (fun _ => Ok []).

(** One replication peer, no credentials, delay checking against a primary. *)
Definition exporterDelay : Scraper :=
  mkScraper "tcp" "localhost:389" "" "" 5 [] [peer] true "primary:389".

(** The search of the query at position [k] finds [entries] here and
    [primary] on the primary. *)
Definition replicating (k : nat) (entries primary : list Entry) : World :=
  mkWorld None None (fun i => if Nat.eqb i k then Ok entries else Ok [])
    (fun _ => None) (fun _ => None) (fun _ => Ok primary).

(** As [quiet], but the primary rejects the bind. *)
Definition rejecting (e : error) : World :=
  mkWorld None None (fun _ => Ok []) (fun _ => None) (fun _ => Some e) (fun _ => Ok []).





(** A completed-operations entry of the monitor subtree. *)
Definition opEntry (dn val : string) : Entry :=
  mkEntry dn [mkAttr monitorOpCompleted [val]].

(** The two searches for the operations find the same entry with the
    values [first] and [second]; every other search finds nothing. *)
Definition counting (dn first second : string) : World :=
  mkWorld None None
    (fun i => if Nat.eqb i 2 then Ok [opEntry dn first]
              else if Nat.eqb i 3 then Ok [opEntry dn second] else Ok [])
    (fun _ => None) (fun _ => None) (fun _ => Ok []).

(** The globals when the process starts. *)
Definition boot : State := mkState queries emptyEnv.

(** ** The help texts and the label names of the metrics *)

(** [strings.Join(elems, sep)] *)
Fixpoint Join (elems : list string) (sep : string) : string :=
  match elems with
  | [] => ""
  | e :: rest =>
      match rest with
      | [] => e
      | _ :: _ => e ++ sep ++ Join rest sep
      end
  end.

(** [help(msg...)] *)
Definition help (msg : list string) : string := Join msg " ".

(** The [Help] of the gauge vectors. *)
Definition Help (g : GaugeVec) : string :=
  match g with
  | monitoredObjectGauge => help [baseDN; objectClass monitoredObject; monitoredInfo]
  | monitorCounterObjectGauge =>
      help [baseDN; objectClass monitorCounterObject; monitorCounter]
  | monitorOperationGauge => help [opsBaseDN; objectClass monitorOperation; monitorOpCompleted]
  | monitorReplicationGauge => help [baseDN; monitorReplication]
  end.


(** ** Further notions used in the statements *)

Definition space : ascii := " "%char.



(** A descriptor of a plain numeric query, outside the delay check. *)
Definition plain (q : query) : Prop :=
  setData q = fn_setValue /\ searchAttr q <> monitorReplicationFilter.

(** The attribute value of an entry is of no use to [setValue]: absent or
    empty, or not a number. *)
Definition unusable (ParseFloat : string -> float64 * option error)
  (attr : string) (e : Entry) : Prop :=
  GetAttributeValue e attr = "" \/ snd (ParseFloat (GetAttributeValue e attr)) <> None.

(** The attribute value of an entry is absent or has at least [n] fields. *)
Definition fieldsOrNone (n : nat) (attr : string) (e : Entry) : Prop :=
  GetAttributeValue e attr = "" \/ (n <= length (Split (GetAttributeValue e attr) sharp))%nat.

(** [st'] is [st] after gauge writes and warnings only: no traffic, no
    count, and nothing logged above the warning level. *)
Definition silent (st st' : Env) : Prop :=
  net st' = net st
  /\ scrapeCounter st' = scrapeCounter st
  /\ exists l, logs st' = (logs st ++ l)%list /\ Forall (fun e => level e = WarnLevel) l.

(** The binds and the closes of the connection to the primary. *)
Definition isMasterBind (ev : NetEvent) : bool :=
  match ev with
  | Bind masterConn _ _ => true
  | _ => false
  end.

Definition isMasterClose (ev : NetEvent) : bool :=
  match ev with
  | Close masterConn => true
  | _ => false
  end.

(** The events of the main connection after its dial. *)
Definition bindEvent (s : Scraper) : list NetEvent :=
  if negb (String.eqb (User s) "") && negb (String.eqb (Pass s) "")
  then [Bind conn (User s) (Pass s)] else [].

(** An entry without attributes. *)
Definition bareEntry (dn : string) : Entry := mkEntry dn [].

(** The directory cannot be reached. *)
Definition unreachable (e : error) : World :=
  mkWorld (Some e) None (fun _ => Ok []) (fun _ => None) (fun _ => None) (fun _ => Ok []).

(** The binds and the closes of the connection to the primary in a
    stretch of traffic are as many. *)
Definition paired (n : list NetEvent) : Prop :=
  length (List.filter isMasterBind n) = length (List.filter isMasterClose n).

(** A gauge store after the writes [ws], the first first. *)
Definition written (ws : list (string * list string * float64))
  (m : gmap (string * list string) float64) : gmap (string * list string) float64 :=
  fold_left (fun m w => <[fst w := snd w]> m) ws m.

(** The label values the program writes points under: a DN, or a server id
    and one of the kinds, ["delay"] among them only with delay checking. *)
Definition kindOK (delay : bool) (key : string * list string) : Prop :=
  match snd key with
  | [_] => True
  | [_; kind] =>
      kind = "gt" \/ kind = "count" \/ kind = "mod" \/ (delay = true /\ kind = "delay")
  | _ => False
  end.

(** [st'] has the gauges of [st] after writes under such label values. *)
Definition wrote (delay : bool) (st st' : Env) : Prop :=
  exists ws, gauges st' = written ws (gauges st) /\ Forall (fun w => kindOK delay (fst w)) ws.

(** * Properties *)

(** ** The library models on examples *)

Example Split_token :
  Split "20211001120000Z#abc#node1#2" sharp = ["20211001120000Z"; "abc"; "node1"; "2"].
Proof. reflexivity. Qed.

Example Split_empty : Split "" sharp = [""].
Proof. reflexivity. Qed.

Example Parse_20211001 :
  time.Unix (fst (time.Parse "20211001120000Z")) = 1633089600
  /\ snd (time.Parse "20211001120000Z") = None.
Proof. split; reflexivity. Qed.

Example Parse_frac :
  time.Parse "20211001120000.123456Z"
  = (time.mkTime 2021 10 1 12 0 0 123456000, None).
Proof. reflexivity. Qed.

Example Parse_bad_month : snd (time.Parse "20211301120000Z") <> None.
Proof. discriminate. Qed.

Example Parse_feb30 : snd (time.Parse "20210230120000Z") <> None.
Proof. discriminate. Qed.

Example Parse_hour24 : snd (time.Parse "20211001240000Z") <> None.
Proof. discriminate. Qed.

Example Parse_leap_second : snd (time.Parse "20161231235960Z") <> None.
Proof. discriminate. Qed.

Example generalizedTime_plain : generalizedTime "20211001120000Z" = true.
Proof. reflexivity. Qed.

Example generalizedTime_fraction : generalizedTime "20211001120000.123456Z" = true.
Proof. reflexivity. Qed.

Example generalizedTime_13_digits : generalizedTime "2021100112000Z" = false.
Proof. reflexivity. Qed.

Example generalizedTime_no_Z : generalizedTime "20211001120000" = false.
Proof. reflexivity. Qed.

Example generalizedTime_no_digit_after_separator : generalizedTime "20211001120000.Z" = false.
Proof. reflexivity. Qed.

Example calendarSecond_feb30 : calendarSecond (fieldsOf "20210230120000Z") = false.
Proof. reflexivity. Qed.

Example calendarSecond_feb29 :
  calendarSecond (fieldsOf "20240229120000Z") = true
  /\ calendarSecond (fieldsOf "20230229120000Z") = false.
Proof. split; reflexivity. Qed.

Example Unix_zero : time.Unix time.zero = -62135596800.
Proof. reflexivity. Qed.

Example ParseFloat_5 : strconv.ParseFloat "5" = (float64_of_int 5, None).
Proof. reflexivity. Qed.

Example ParseFloat_abc : strconv.ParseFloat "abc" = (float64_zero, Some strconv.ErrSyntax).
Proof. reflexivity. Qed.

Example ParseFloat_half : strconv.ParseFloat "0.5" = (S754_finite false 4503599627370496 (-53), None).
Proof. vm_compute. reflexivity. Qed.

Example ParseFloat_hex : strconv.ParseFloat "0x1p-1" = strconv.ParseFloat "0.5".
Proof. vm_compute. reflexivity. Qed.

Example ParseFloat_exp : strconv.ParseFloat "-1_0e2" = (float64_of_int (-1000), None).
Proof. vm_compute. reflexivity. Qed.

Example ParseFloat_range : snd (strconv.ParseFloat "1e400") = Some strconv.ErrRange.
Proof. vm_compute. reflexivity. Qed.

Example ParseFloat_empty : snd (strconv.ParseFloat "") = Some strconv.ErrSyntax.
Proof. reflexivity. Qed.

(** ** [strings.Split] *)

Lemma Split_not_nil (s : string) (sep : ascii) : Split s sep <> [].
Proof.
  induction s as [|c s IH]; simpl; [discriminate|].
  destruct (Ascii.eqb c sep); [discriminate|].
  destruct (Split s sep); discriminate.
Qed.

Lemma Split_field (sep : ascii) (f s : string) :
  no_sep sep f = true ->
  Split (f ++ String sep s) sep = f :: Split s sep.
Proof.
  induction f as [|c f IH]; simpl; intros H.
  - now rewrite Ascii.eqb_refl.
  - apply andb_prop in H as [Hc Hf].
    apply negb_true_iff in Hc. rewrite Hc, (IH Hf). reflexivity.
Qed.

Lemma Split_last (sep : ascii) (f : string) :
  no_sep sep f = true -> Split f sep = [f].
Proof.
  induction f as [|c f IH]; simpl; intros H; [reflexivity|].
  apply andb_prop in H as [Hc Hf].
  apply negb_true_iff in Hc. rewrite Hc, (IH Hf). reflexivity.
Qed.

Lemma Split_token_fields (T C S M : string) :
  no_sep sharp T = true -> no_sep sharp C = true ->
  no_sep sharp S = true -> no_sep sharp M = true ->
  Split (token T C S M) sharp = [T; C; S; M].
Proof.
  intros HT HC HS HM. unfold token.
  now rewrite !Split_field, Split_last.
Qed.

(** [valueBuffer[0]] is always in range. *)
Lemma index_0_Split (s : string) (sep : ascii) :
  exists v0, index (Split s sep) 0 = Done v0 /\ hd_error (Split s sep) = Some v0.
Proof.
  destruct (Split s sep) as [|v0 vs] eqn:E.
  - now apply Split_not_nil in E.
  - exists v0. split; reflexivity.
Qed.

Lemma Parse_error (v : string) :
  time.Parse_layout v = None -> exists e, time.Parse v = (time.zero, Some e).
Proof. unfold time.Parse. intros ->. eauto. Qed.

(** ** What [time.Parse] accepts *)

Lemma is_digit_digit c : time.is_digit c = true -> 0 <= time.digit c <= 9.
Proof.
  unfold time.is_digit, time.digit. intros H. apply andb_prop in H as [H1 H2].
  apply Nat.leb_le in H1, H2. lia.
Qed.

Lemma is_digit_timeByte c : time.is_digit c = true -> timeByte c = true.
Proof. unfold timeByte. now intros ->. Qed.

Lemma getnum_spec s fixed n v :
  time.getnum s fixed = Some (n, v) ->
  0 <= n <= 99 /\ (timeBytes v = true -> timeBytes s = true).
Proof.
  unfold time.getnum. destruct s as [|c0 s1]; [discriminate|].
  destruct (time.is_digit c0) eqn:H0; cbn [negb]; [|discriminate].
  pose proof (is_digit_digit c0 H0). pose proof (is_digit_timeByte c0 H0) as T0.
  destruct s1 as [|c1 s2].
  - destruct fixed; [discriminate|]. intros [= <- <-]. split; [lia|].
    intros _. cbn [timeBytes]. now rewrite T0.
  - destruct (time.is_digit c1) eqn:H1.
    + pose proof (is_digit_digit c1 H1). pose proof (is_digit_timeByte c1 H1) as T1.
      intros [= <- <-]. split; [lia|]. intros Hv. cbn [timeBytes]. now rewrite T0, T1.
    + destruct fixed; [discriminate|]. intros [= <- <-]. split; [lia|].
      intros Hv. cbn [timeBytes] in *. now rewrite T0.
Qed.

Lemma getyear_spec s y v :
  time.getyear s = Some (y, v) ->
  0 <= y <= 9999 /\ (timeBytes v = true -> timeBytes s = true).
Proof.
  unfold time.getyear.
  destruct s as [|c0 [|c1 [|c2 [|c3 r]]]]; try discriminate.
  cbn [String.length Nat.ltb Nat.leb orb time.isDigit String.get String.substring
       time.from time.atoi time.atoi_acc].
  destruct (time.is_digit c0) eqn:H0; cbn [negb]; [|discriminate].
  destruct (time.is_digit c1) eqn:H1; [|discriminate].
  destruct (time.is_digit c2) eqn:H2; [|discriminate].
  destruct (time.is_digit c3) eqn:H3; [|discriminate].
  replace (substring 0 0 r) with "" by (now destruct r). cbn [time.atoi_acc].
  intros [= <- <-].
  pose proof (is_digit_digit _ H0). pose proof (is_digit_digit _ H1).
  pose proof (is_digit_digit _ H2). pose proof (is_digit_digit _ H3).
  split; [lia|]. intros Hv. cbn [timeBytes].
  now rewrite !is_digit_timeByte, Hv.
Qed.

Lemma leadingDigits_timeBytes s :
  timeBytes (time.from (time.leadingDigits s) s) = true -> timeBytes s = true.
Proof.
  induction s as [|c s IH]; [reflexivity|]. cbn [time.leadingDigits].
  destruct (time.is_digit c) eqn:H; cbn [time.from]; [|trivial].
  intros Hv. cbn [timeBytes]. now rewrite (is_digit_timeByte c H), IH.
Qed.

Lemma getfrac_spec s ns v :
  time.getfrac s = Some (ns, v) -> timeBytes v = true -> timeBytes s = true.
Proof.
  unfold time.getfrac. destruct s as [|c0 [|c1 r]]; try (now intros [= <- <-]).
  destruct (time.commaOrPeriod c0 && time.is_digit c1) eqn:H; [|now intros [= <- <-]].
  destruct (time.parseNanoseconds _ _); [|discriminate].
  intros [= <- <-]. cbn [Nat.add time.from]. intros Hv.
  apply (leadingDigits_timeBytes (String c1 r)) in Hv. apply andb_prop in H as [H _].
  cbn [timeBytes] in *. unfold timeByte at 1. rewrite H, orb_true_r. exact Hv.
Qed.

Lemma daysIn_le m y : 1 <= m <= 12 -> time.daysIn m y <= 31.
Proof.
  intros H. unfold time.daysIn. destruct (_ && _); [lia|].
  assert (m = 1 \/ m = 2 \/ m = 3 \/ m = 4 \/ m = 5 \/ m = 6 \/ m = 7 \/ m = 8
          \/ m = 9 \/ m = 10 \/ m = 11 \/ m = 12) as Hm by lia.
  repeat (destruct Hm as [->|Hm]; [vm_compute; discriminate|]).
  subst m. vm_compute. discriminate.
Qed.

(** The strings [time.Parse] accepts at the layout are made of digits, a
    decimal separator and [Z], and name a second of the years 0 to 9999. *)
Lemma Parse_layout_spec v t :
  time.Parse_layout v = Some t ->
  timeBytes v = true
  /\ 0 <= time.year t <= 9999 /\ 1 <= time.month t <= 12 /\ 1 <= time.day t <= 31
  /\ 0 <= time.hour t <= 23 /\ 0 <= time.min t <= 59 /\ 0 <= time.sec t <= 59.
Proof.
  unfold time.Parse_layout.
  destruct (time.getyear v) as [[y v1]|] eqn:Hy; [|discriminate].
  destruct (time.getnum v1 true) as [[mo v2]|] eqn:Hmo; [|discriminate].
  destruct ((mo <=? 0) || (12 <? mo)) eqn:Rmo; [discriminate|].
  destruct (time.getnum v2 true) as [[d v3]|] eqn:Hd; [|discriminate].
  destruct (time.getnum v3 false) as [[h v4]|] eqn:Hh; [|discriminate].
  destruct ((h <? 0) || (24 <=? h)) eqn:Rh; [discriminate|].
  destruct (time.getnum v4 true) as [[mi v5]|] eqn:Hmi; [|discriminate].
  destruct ((mi <? 0) || (60 <=? mi)) eqn:Rmi; [discriminate|].
  destruct (time.getnum v5 true) as [[sc v6]|] eqn:Hs; [|discriminate].
  destruct ((sc <? 0) || (60 <=? sc)) eqn:Rs; [discriminate|].
  destruct (time.getfrac v6) as [[ns v7]|] eqn:Hf; [|discriminate].
  destruct v7 as [|c [|? ?]]; try discriminate.
  destruct (Ascii.eqb c "Z") eqn:HZ; [|discriminate].
  destruct ((d <? 1) || (time.daysIn mo y <? d)) eqn:Rd; [discriminate|].
  intros [= <-]. cbn [time.year time.month time.day time.hour time.min time.sec].
  apply getyear_spec in Hy as [By Ty]. apply getnum_spec in Hmo as [_ Tmo].
  apply getnum_spec in Hd as [_ Td]. apply getnum_spec in Hh as [_ Th].
  apply getnum_spec in Hmi as [_ Tmi]. apply getnum_spec in Hs as [_ Ts].
  pose proof (getfrac_spec _ _ _ Hf) as Tf.
  apply orb_false_iff in Rmo as [? ?], Rh as [? ?], Rmi as [? ?], Rs as [? ?], Rd as [? ?].
  assert (Hmo : 1 <= mo <= 12) by lia.
  pose proof (daysIn_le mo y Hmo).
  split; [|lia].
  apply Ty, Tmo, Td, Th, Tmi, Ts, Tf. cbn [timeBytes]. unfold timeByte.
  now rewrite HZ, orb_true_r.
Qed.

Lemma timeBytes_no_sharp s : timeBytes s = true -> no_sep sharp s = true.
Proof.
  induction s as [|c s IH]; [reflexivity|]. cbn [timeBytes no_sep].
  intros H. apply andb_prop in H as [Hc Hs]. rewrite (IH Hs), andb_true_r.
  destruct (Ascii.eqb_spec c sharp) as [->|]; [discriminate Hc | reflexivity].
Qed.

Lemma Parse_ok v t : time.Parse v = (t, None) -> time.Parse_layout v = Some t.
Proof. unfold time.Parse. destruct (time.Parse_layout v); now intros [= ->]. Qed.

Lemma daysBefore_bound m : 1 <= m <= 12 -> 0 <= time.daysBefore m <= 334.
Proof.
  intros H.
  assert (m = 1 \/ m = 2 \/ m = 3 \/ m = 4 \/ m = 5 \/ m = 6 \/ m = 7 \/ m = 8
          \/ m = 9 \/ m = 10 \/ m = 11 \/ m = 12) as Hm by lia.
  repeat (destruct Hm as [->|Hm]; [split; vm_compute; discriminate|]).
  subst m. split; vm_compute; discriminate.
Qed.

(** The epoch seconds of an accepted time fit [float64] many times over. *)
Lemma Unix_bound v t : time.Parse_layout v = Some t -> Z.abs (time.Unix t) < 2 ^ 39.
Proof.
  intros H. apply Parse_layout_spec in H as (_ & Hy & Hmo & Hd & Hh & Hmi & Hs).
  unfold time.Unix, time.daysBeforeYear, time.unixEpochDays.
  pose proof (daysBefore_bound _ Hmo).
  destruct (time.isLeap (time.year t) && (3 <=? time.month t));
    change (2 ^ 39) with 549755813888; Z.div_mod_to_equations; lia.
Qed.

(** ** What [time.Parse] does with the strings of the format *)

Lemma digitsZ_from s :
  digitsZ s = true -> time.from (time.leadingDigits s) s = "Z".
Proof.
  induction s as [|c s IH]; [discriminate|]. cbn [digitsZ].
  destruct s as [|c' s'].
  - intros H. apply Ascii.eqb_eq in H as ->. reflexivity.
  - intros H. apply andb_prop in H as [Hc Hs]. cbn [time.leadingDigits] in *.
    rewrite Hc. cbn [time.from]. now apply IH.
Qed.

Lemma atoi_acc_digits s : forall n acc,
  (n <= time.leadingDigits s)%nat ->
  exists v, time.atoi_acc acc (substring 0 n s) = Some v.
Proof.
  induction s as [|c s IH]; intros n acc Hn.
  - cbn in Hn. assert (n = 0%nat) as -> by lia. cbn. eauto.
  - destruct n as [|n]; [cbn; eauto|].
    cbn [time.leadingDigits] in Hn. destruct (time.is_digit c) eqn:Hc; [|lia].
    cbn [substring time.atoi_acc]. rewrite Hc. apply IH. lia.
Qed.

Lemma getfrac_fractionZ s :
  fractionZ s = true -> exists ns, time.getfrac s = Some (ns, "Z").
Proof.
  destruct s as [|c [|d r]]; [discriminate| |].
  - cbn. intros H. apply Ascii.eqb_eq in H as ->. eauto.
  - cbn [fractionZ]. intros H. apply andb_prop in H as [H Hr]. apply andb_prop in H as [Hc Hd].
    unfold time.getfrac. rewrite Hc, Hd. cbn [andb time.from time.leadingDigits].
    rewrite Hd. unfold time.parseNanoseconds. rewrite Hc. cbn [negb].
    set (i := time.leadingDigits r).
    set (nb := Nat.min (1 + S i) 10).
    assert (Hs : substring 1 (nb - 1) (String c (String d r)) = substring 0 (nb - 1) (String d r)).
    { destruct (nb - 1)%nat; reflexivity. }
    rewrite Hs.
    destruct (nb - 1)%nat as [|n] eqn:Hn; [subst nb; lia|].
    destruct (atoi_acc_digits (String d r) (S n) 0) as [v Hv].
    { cbn [time.leadingDigits]. rewrite Hd. fold i. subst nb. lia. }
    unfold time.atoi. cbn [substring] in *. rewrite Hv.
    eexists. f_equal. f_equal. cbn [Nat.add time.from]. now apply digitsZ_from.
Qed.

(** What [time.Parse] does with a string of the format: it accepts the
    strings that name a second of the calendar, with those fields, and no
    other. *)
Lemma Parse_layout_generalizedTime T :
  generalizedTime T = true ->
  if calendarSecond (fieldsOf T)
  then exists ns, time.Parse_layout T
                  = Some (time.mkTime (time.year (fieldsOf T)) (time.month (fieldsOf T))
                            (time.day (fieldsOf T)) (time.hour (fieldsOf T))
                            (time.min (fieldsOf T)) (time.sec (fieldsOf T)) ns)
  else time.Parse_layout T = None.
Proof.
  unfold generalizedTime. intros H. apply andb_prop in H as [H HF]. apply andb_prop in H as [HL HD].
  destruct T as [|c0 [|c1 [|c2 [|c3 [|c4 [|c5 [|c6 [|c7 [|c8 [|c9 [|c10 [|c11 [|c12 [|c13 r]]]]]]]]]]]]]];
    try discriminate HL.
  replace (substring 0 14 _) with
    (String c0 (String c1 (String c2 (String c3 (String c4 (String c5 (String c6
      (String c7 (String c8 (String c9 (String c10 (String c11 (String c12 (String c13 ""))))))))))))))
    in HD by (cbn; now destruct r).
  cbn [allDigits] in HD.
  repeat match type of HD with
         | _ && _ = true => apply andb_prop in HD as [?D HD]
         end.
  cbn [time.from] in HF.
  destruct (getfrac_fractionZ r HF) as [ns Hns].
  unfold fieldsOf, calendarSecond.
  cbn [substring number list_ascii_of_string fold_left time.year time.month time.day
       time.hour time.min time.sec].
  replace (substring 0 0 _) with "" by (now destruct r).
  cbn [list_ascii_of_string fold_left].
  unfold time.Parse_layout, time.getyear.
  cbn [String.length Nat.ltb Nat.leb orb time.isDigit String.get String.substring
       time.from time.atoi time.atoi_acc].
  rewrite D, D0, D1, D2. cbn [negb]. unfold time.getnum.
  repeat (cbv beta iota; cbn [negb];
          match goal with
          | H : time.is_digit ?c = true |- context [time.is_digit ?c] => rewrite H
          end).
  cbv beta iota. rewrite Hns.
  change (Ascii.eqb "Z" "Z") with true. cbv beta iota.
  pose proof (is_digit_digit _ D7). pose proof (is_digit_digit _ D8).
  pose proof (is_digit_digit _ D9). pose proof (is_digit_digit _ D10).
  pose proof (is_digit_digit _ D11). pose proof (is_digit_digit _ D12).
  repeat match goal with
         | |- context [0 * 10 + ?x] => change (0 * 10 + x) with x
         end.
  set (y := ((time.digit c0 * 10 + time.digit c1) * 10 + time.digit c2) * 10
            + time.digit c3).
  set (mo := time.digit c4 * 10 + time.digit c5).
  set (d := time.digit c6 * 10 + time.digit c7).
  set (h := time.digit c8 * 10 + time.digit c9) in *.
  set (mi := time.digit c10 * 10 + time.digit c11) in *.
  set (s := time.digit c12 * 10 + time.digit c13) in *.
  set (dd := time.daysIn mo y).
  assert (E1 : (mo <=? 0) || (12 <? mo) = negb ((1 <=? mo) && (mo <=? 12))).
  { destruct (Z.leb_spec mo 0), (Z.ltb_spec 12 mo), (Z.leb_spec 1 mo), (Z.leb_spec mo 12);
      try reflexivity; lia. }
  assert (E2 : (h <? 0) || (24 <=? h) = negb (h <=? 23)).
  { destruct (Z.ltb_spec h 0), (Z.leb_spec 24 h), (Z.leb_spec h 23); try reflexivity; lia. }
  assert (E3 : (mi <? 0) || (60 <=? mi) = negb (mi <=? 59)).
  { destruct (Z.ltb_spec mi 0), (Z.leb_spec 60 mi), (Z.leb_spec mi 59); try reflexivity; lia. }
  assert (E4 : (s <? 0) || (60 <=? s) = negb (s <=? 59)).
  { destruct (Z.ltb_spec s 0), (Z.leb_spec 60 s), (Z.leb_spec s 59); try reflexivity; lia. }
  assert (E5 : (d <? 1) || (dd <? d) = negb ((1 <=? d) && (d <=? dd))).
  { destruct (Z.ltb_spec d 1), (Z.ltb_spec dd d), (Z.leb_spec 1 d), (Z.leb_spec d dd);
      try reflexivity; lia. }
  rewrite E1, E2, E3, E4, E5.
  destruct (1 <=? mo), (mo <=? 12), (1 <=? d), (d <=? dd), (h <=? 23), (mi <=? 59), (s <=? 59);
    cbn [andb negb]; eauto.
Qed.

Lemma digitsZ_timeBytes s : digitsZ s = true -> timeBytes s = true.
Proof.
  induction s as [|c s IH]; [discriminate|]. cbn [digitsZ timeBytes].
  destruct s as [|c' s'].
  - intros H. unfold timeByte. now rewrite H, orb_true_r.
  - intros H. apply andb_prop in H as [Hc Hs].
    now rewrite (is_digit_timeByte c Hc), (IH Hs).
Qed.

(** A string of the format is made of digits, a decimal separator and [Z]. *)
Lemma generalizedTime_timeBytes T : generalizedTime T = true -> timeBytes T = true.
Proof.
  unfold generalizedTime. intros H. apply andb_prop in H as [H HF]. apply andb_prop in H as [HL HD].
  destruct T as [|c0 [|c1 [|c2 [|c3 [|c4 [|c5 [|c6 [|c7 [|c8 [|c9 [|c10 [|c11 [|c12 [|c13 r]]]]]]]]]]]]]];
    try discriminate HL.
  replace (substring 0 14 _) with
    (String c0 (String c1 (String c2 (String c3 (String c4 (String c5 (String c6
      (String c7 (String c8 (String c9 (String c10 (String c11 (String c12 (String c13 ""))))))))))))))
    in HD by (cbn; now destruct r).
  cbn [allDigits] in HD.
  repeat match type of HD with
         | _ && _ = true => apply andb_prop in HD as [?D HD]
         end.
  cbn [time.from] in HF. cbn [timeBytes].
  rewrite !is_digit_timeByte by assumption. cbn [andb].
  destruct r as [|c [|d r]]; [discriminate| |].
  - cbn in HF. cbn [timeBytes]. unfold timeByte. now rewrite HF, orb_true_r.
  - cbn [fractionZ] in HF. apply andb_prop in HF as [H Hr]. apply andb_prop in H as [Hc Hd].
    cbn [timeBytes]. rewrite (is_digit_timeByte d Hd), (digitsZ_timeBytes r Hr).
    unfold timeByte. now rewrite Hc, orb_true_r.
Qed.

(** The epoch seconds do not depend on the fraction. *)
Lemma Parse_generalizedTime T :
  generalizedTime T = true -> calendarSecond (fieldsOf T) = true ->
  exists t, time.Parse T = (t, None) /\ time.Unix t = time.Unix (fieldsOf T).
Proof.
  intros HT Hcal. pose proof (Parse_layout_generalizedTime T HT) as Hp.
  rewrite Hcal in Hp. destruct Hp as [ns Hp].
  eexists. split; [unfold time.Parse; rewrite Hp; reflexivity|].
  unfold time.Unix.
  cbn [time.year time.month time.day time.hour time.min time.sec]. reflexivity.
Qed.

(** ** The token decoder *)

Section Decoder.

Variable ParseFloat : string -> float64 * option error.

(** A token ["T#C#S#M"] whose first field [T] is accepted by
    [time.Parse] at the generalized-time layout and whose fields [C] and
    [M] are accepted by [strconv.ParseFloat] decodes, without error and
    without a log entry, to the epoch seconds of [T] as a [float64], the
    value of [C], the field [S] as it stands, and the value of [M]. *)
Lemma parseContextCSN_accepted (T C S M : string) (t : time.Time)
    (c m : float64) (fields : Fields) (st : Env) :
  no_sep sharp C = true -> no_sep sharp S = true -> no_sep sharp M = true ->
  time.Parse T = (t, None) ->
  ParseFloat C = (c, None) ->
  ParseFloat M = (m, None) ->
  parseContextCSN ParseFloat (token T C S M) fields st
  = Done ((float64_of_int (time.Unix t), c, S, m, None), st).
Proof.
  intros HC HS HM Ht Hc Hm.
  assert (HT : no_sep sharp T = true).
  { apply timeBytes_no_sharp. now apply (Parse_layout_spec T t), Parse_ok. }
  unfold parseContextCSN.
  rewrite (Split_token_fields T C S M HT HC HS HM).
  cbn [index nth_error mbind go_bind].
  rewrite Ht. cbn [mbind go_bind]. rewrite Hc. cbn [mbind go_bind].
  now rewrite Hm.
Qed.

(** C7, as the code has it. A token ["T#C#S#M"] whose first field [T] is
    of the generalized-time format (14 digits, optional fractional
    seconds, trailing [Z]) and names a second of the calendar (month 01
    to 12, a day of that month in that year, hour 00 to 23, minute and
    second 00 to 59), and whose fields [C] and [M] are accepted by
    [strconv.ParseFloat], decodes, without error and without a log entry,
    to the epoch seconds of [T] as a [float64], the value of [C], the
    field [S] as it stands, whatever it is, and the value of [M]. *)
Theorem parseContextCSN_valid (T C S M : string)
    (c m : float64) (fields : Fields) (st : Env) :
  generalizedTime T = true ->
  calendarSecond (fieldsOf T) = true ->
  no_sep sharp C = true -> no_sep sharp S = true -> no_sep sharp M = true ->
  ParseFloat C = (c, None) ->
  ParseFloat M = (m, None) ->
  parseContextCSN ParseFloat (token T C S M) fields st
  = Done ((float64_of_int (time.Unix (fieldsOf T)), c, S, m, None), st).
Proof.
  intros HT Hcal HC HS HM Hc Hm.
  destruct (Parse_generalizedTime T HT Hcal) as (t & Ht & <-).
  exact (parseContextCSN_accepted T C S M t c m fields st HC HS HM Ht Hc Hm).
Qed.

(** A first field of the format that names no second of the calendar is
    refused, whatever the other fields are: the decoder returns the error
    of [time.Parse] and logs the warning. *)
Lemma parseContextCSN_no_calendarSecond (T C S M : string) (fields : Fields) (st : Env) :
  generalizedTime T = true ->
  calendarSecond (fieldsOf T) = false ->
  exists e,
    parseContextCSN ParseFloat (token T C S M) fields st
    = Done ((float64_of_int (time.Unix time.zero), float64_zero, "", float64_zero, Some e),
            Log WarnLevel (WithError e fields) "unexpected gt value" st).
Proof.
  intros HT Hcal. pose proof (Parse_layout_generalizedTime T HT) as Hp.
  rewrite Hcal in Hp.
  destruct (Parse_error T Hp) as [e He]. exists e.
  unfold parseContextCSN, token.
  rewrite Split_field by (now apply timeBytes_no_sharp, generalizedTime_timeBytes).
  cbn [index nth_error mbind go_bind]. now rewrite He.
Qed.

End Decoder.

Lemma parseContextCSN_valid_witness :
  parseContextCSN strconv.ParseFloat "20211001120000.123456Z#5#node1#2" [] emptyEnv
  = Done ((float64_of_int 1633089600, float64_of_int 5, "node1", float64_of_int 2, None),
          emptyEnv).
Proof.
  apply (parseContextCSN_valid strconv.ParseFloat
           "20211001120000.123456Z" "5" "node1" "2"
           (float64_of_int 5) (float64_of_int 2) [] emptyEnv);
    reflexivity.
Defined.

(** C7, a counterexample to the specification as written: the first field
    is of the format, 14 digits and the trailing [Z], the second and the
    fourth field are numbers, and the decoder returns an error and logs a
    warning, because February has no 30th day. *)
Lemma parseContextCSN_refuses_february_30 :
  generalizedTime "20210230120000Z" = true
  /\ strconv.ParseFloat "5" = (float64_of_int 5, None)
  /\ strconv.ParseFloat "2" = (float64_of_int 2, None)
  /\ exists e,
       parseContextCSN strconv.ParseFloat "20210230120000Z#5#node1#2" [] emptyEnv
       = Done ((float64_of_int (time.Unix time.zero), float64_zero, "", float64_zero, Some e),
               Log WarnLevel (WithError e []) "unexpected gt value" emptyEnv).
Proof. repeat split. eexists. reflexivity. Qed.

(** ** The replication parser *)

Section Replication.

Variable ParseFloat : string -> float64 * option error.

(** Decoding a token never writes to the sink. *)
Lemma parseContextCSN_gauges val f st r st1 :
  parseContextCSN ParseFloat val f st = Done (r, st1) -> gauges st1 = gauges st.
Proof.
  unfold parseContextCSN.
  destruct (index (Split val sharp) 0) as [v0|]; cbn [mbind go_bind]; [|discriminate].
  destruct (time.Parse v0) as [t [e|]]; [now intros [= <- <-]|].
  destruct (index (Split val sharp) 1) as [v1|]; cbn [mbind go_bind]; [|discriminate].
  destruct (ParseFloat v1) as [c [e|]]; [now intros [= <- <-]|].
  destruct (index (Split val sharp) 2) as [v2|]; cbn [mbind go_bind]; [|discriminate].
  destruct (index (Split val sharp) 3) as [v3|]; cbn [mbind go_bind]; [|discriminate].
  destruct (ParseFloat v3) as [m [e|]]; now intros [= <- <-].
Qed.

(** A token whose count is not a number: a warning and an error. *)
Lemma parseContextCSN_count_error val T C more t c e f st :
  Split val sharp = T :: C :: more ->
  time.Parse T = (t, None) ->
  ParseFloat C = (c, Some e) ->
  parseContextCSN ParseFloat val f st
  = Done ((float64_of_int (time.Unix t), c, "", float64_zero, Some e),
          Log WarnLevel (WithError e f) "unexpected count value" st).
Proof.
  intros HS Ht Hc. unfold parseContextCSN. rewrite HS.
  cbn [index nth_error mbind go_bind]. rewrite Ht.
  cbn [mbind go_bind]. now rewrite Hc.
Qed.

(** C1, as the code has it. An entry whose token has a first field that
    parses as generalized time and a second field that is not a number
    publishes no point at all (neither gt nor count nor mod): the entry is
    left with a logged warning, the sink and the cached timestamp as they
    were, and the loop goes on to the next entry; the round of the cycle's
    loop that finds just this entry goes on with [ret] unchanged, so the
    cycle is not failed by it.  In general an entry whose token fails in
    any field publishes nothing, and an entry whose token is decoded has
    its three points written together, after time, count and modifier have
    all been parsed. *)
Theorem setReplicationValue_count_error
    (q : query) (entry : Entry) (entries : list Entry)
    (val T C : string) (more : list string) (t : time.Time) (c : float64)
    (e : error) (st : Env) :
  GetAttributeValue entry (searchAttr q) = val ->
  val <> "" ->
  Split val sharp = T :: C :: more ->
  time.Parse T = (t, None) ->
  ParseFloat C = (c, Some e) ->
  let warned st :=
    Log WarnLevel (WithError e (valueFields q val)) "unexpected count value" st in
  setReplicationValue ParseFloat (entry :: entries) q st
  = setReplicationValue ParseFloat entries q (warned st)
  /\ gauges (warned st) = gauges st
  /\ (forall s w k ret,
        setData q = fn_setReplicationValue ->
        LdapSyncTimeDetal s = false ->
        search w k = Ok [entry] ->
        scrapeBody ParseFloat s w k q ret st
        = Done (Continue ret, q,
                warned (Send (Search conn (q_baseDN q) (searchFilter q) (searchAttr q)) st)))
  /\ (forall entry' r err st1,
        GetAttributeValue entry' (searchAttr q) <> "" ->
        parseContextCSN ParseFloat (GetAttributeValue entry' (searchAttr q))
          (valueFields q (GetAttributeValue entry' (searchAttr q))) st
        = Done ((r, Some err), st1) ->
        setReplicationValue ParseFloat (entry' :: entries) q st
        = setReplicationValue ParseFloat entries q st1
        /\ gauges st1 = gauges st)
  /\ (forall entry' gt count sid mod_ st1,
        GetAttributeValue entry' (searchAttr q) <> "" ->
        parseContextCSN ParseFloat (GetAttributeValue entry' (searchAttr q))
          (valueFields q (GetAttributeValue entry' (searchAttr q))) st
        = Done ((gt, count, sid, mod_, None), st1) ->
        setReplicationValue ParseFloat (entry' :: entries) q st
        = setReplicationValue ParseFloat entries (set_RepolicateResult gt q)
            (Set_ (metric q) [sid; "mod"] mod_
               (Set_ (metric q) [sid; "count"] count
                  (Set_ (metric q) [sid; "gt"] gt st1)))).
Proof.
  intros Hval Hne HS Ht Hc warned.
  assert (Hstep : forall st0,
    setReplicationValue ParseFloat (entry :: entries) q st0
    = setReplicationValue ParseFloat entries q (warned st0)).
  { intros st0. cbn [setReplicationValue]. rewrite Hval.
    apply String.eqb_neq in Hne. rewrite Hne.
    rewrite (parseContextCSN_count_error val T C more t c e _ st0 HS Ht Hc).
    reflexivity. }
  split; [apply Hstep|]. split; [reflexivity|]. split.
  - intros s w k ret Hfn Hoff Hw.
    unfold scrapeBody, scrapeQuery. rewrite Hw. unfold call_setData. rewrite Hfn.
    specialize (Hstep (Send (Search conn (q_baseDN q) (searchFilter q) (searchAttr q)) st)).
    replace [entry] with (entry :: []) by reflexivity.
    cbn [setReplicationValue] in Hstep |- *. rewrite Hval in Hstep |- *.
    apply String.eqb_neq in Hne. rewrite Hne in Hstep |- *.
    rewrite (parseContextCSN_count_error val T C more t c e _ _ HS Ht Hc).
    cbn [mbind go_bind]. unfold delayCheck. rewrite Hoff.
    destruct (String.eqb (searchAttr q) monitorReplicationFilter); reflexivity.
  - split.
    + intros entry' r err st1 Hne' Hp.
      split; [|exact (parseContextCSN_gauges _ _ _ _ _ Hp)].
      cbn [setReplicationValue].
      apply String.eqb_neq in Hne'. rewrite Hne'. rewrite Hp.
      destruct r as [[[gt count] sid] mod_]. reflexivity.
    + intros entry' gt count sid mod_ st1 Hne' Hp.
      cbn [setReplicationValue].
      apply String.eqb_neq in Hne'. rewrite Hne'. rewrite Hp. reflexivity.
Qed.

(** C2, a failing input. A token whose first field parses as generalized
    time and which has fewer than four fields makes the decoder index its
    fields out of range: [parseContextCSN] panics, so does
    [setReplicationDelayValue] on a token of fewer than three fields, and
    the process that finds such a token on its peer's entry ends in the
    panic at its first tick. *)
Theorem parseContextCSN_short_token_panics (fields : Fields) (st : Env) :
  parseContextCSN ParseFloat "20211001120000Z" fields st
  = Panic "runtime error: index out of range"
  /\ setReplicationValue ParseFloat [csnEntry "20211001120000Z"] (replicationQuery peer) st
     = Panic "runtime error: index out of range"
  /\ setReplicationDelayValue [csnEntry "20211001120000Z#5"] (replicationQuery peer) st
     = Panic "runtime error: index out of range"
  /\ Start ParseFloat exporter [finding 4 [csnEntry "20211001120000Z"]] boot
     = Panic "runtime error: index out of range".
Proof. repeat split; reflexivity. Qed.

End Replication.

Lemma setReplicationValue_count_error_witness :
  setReplicationValue strconv.ParseFloat
    [csnEntry "20211001120000Z#abc#node1#2"] (replicationQuery peer) emptyEnv
  = Done (replicationQuery peer,
          Log WarnLevel
            [("filter", "(objectClass=*)"); ("attr", "contextCSN");
             ("value", "20211001120000Z#abc#node1#2"); ("error", "invalid syntax")]
            "unexpected count value" emptyEnv).
Proof.
  refine (proj1 (setReplicationValue_count_error strconv.ParseFloat
           (replicationQuery peer) (csnEntry "20211001120000Z#abc#node1#2") []
           "20211001120000Z#abc#node1#2" "20211001120000Z" "abc" ["node1"; "2"]
           (time.mkTime 2021 10 1 12 0 0 0) float64_zero strconv.ErrSyntax emptyEnv
           _ _ _ _ _)); try reflexivity.
  discriminate.
Defined.

(** C1, a counterexample to the specification as written: the token
    ["20211001120000Z#abc#node1#2"] leaves no point for [("node1", "gt")],
    and no point at all. *)
Lemma setReplicationValue_publishes_no_gt :
  exists q' st',
    setReplicationValue strconv.ParseFloat
      [csnEntry "20211001120000Z#abc#node1#2"] (replicationQuery peer) emptyEnv
    = Done (q', st')
    /\ point st' monitorReplicationGauge ["node1"; "gt"] = None
    /\ gauges st' = ∅.
Proof. do 2 eexists. split; [reflexivity|]. split; reflexivity. Qed.

(** ** Frames: what a cycle leaves alone *)

Lemma extends_refl st : extends st st.
Proof. repeat split; exists []; now rewrite app_nil_r. Qed.

Lemma extends_trans st1 st2 st3 : extends st1 st2 -> extends st2 st3 -> extends st1 st3.
Proof.
  intros (Hc & [l Hl] & [n Hn]) (Hc' & [l' Hl'] & [n' Hn']).
  split; [congruence|].
  split; [exists (l ++ l')%list | exists (n ++ n')%list].
  - now rewrite Hl', Hl, app_assoc.
  - now rewrite Hn', Hn, app_assoc.
Qed.

Lemma extends_Set g lvs v st : extends st (Set_ g lvs v st).
Proof. repeat split; exists []; simpl; now rewrite app_nil_r. Qed.

Lemma extends_Log lv f msg st : extends st (Log lv f msg st).
Proof. repeat split; [now eexists | exists []; simpl; now rewrite app_nil_r]. Qed.

Lemma extends_Send ev st : extends st (Send ev st).
Proof. repeat split; [exists []; simpl; now rewrite app_nil_r | now eexists]. Qed.


Create HintDb frames.

#[local] Hint Resolve extends_refl extends_Set extends_Log extends_Send : frames.

Section Frames.

Variable ParseFloat : string -> float64 * option error.

Lemma setValue_extends entries q st : extends st (setValue ParseFloat entries q st).
Proof.
  revert st. induction entries as [|entry entries IH]; intros st; cbn [setValue].
  - apply extends_refl.
  - destruct (String.eqb _ ""); [apply IH|].
    destruct (ParseFloat _) as [num [e|]]; [apply IH|].
    eapply extends_trans; [|apply IH]. apply extends_Set.
Qed.

Lemma parseContextCSN_extends val f st r st1 :
  parseContextCSN ParseFloat val f st = Done (r, st1) -> extends st st1.
Proof.
  unfold parseContextCSN.
  destruct (index (Split val sharp) 0) as [v0|]; cbn [mbind go_bind]; [|discriminate].
  destruct (time.Parse v0) as [t [e|]]; [intros [= <- <-]; apply extends_Log|].
  destruct (index (Split val sharp) 1) as [v1|]; cbn [mbind go_bind]; [|discriminate].
  destruct (ParseFloat v1) as [c [e|]]; [intros [= <- <-]; apply extends_Log|].
  destruct (index (Split val sharp) 2) as [v2|]; cbn [mbind go_bind]; [|discriminate].
  destruct (index (Split val sharp) 3) as [v3|]; cbn [mbind go_bind]; [|discriminate].
  destruct (ParseFloat v3) as [m [e|]]; intros [= <- <-];
    [apply extends_Log | apply extends_refl].
Qed.

Lemma setReplicationValue_frame entries q st q' st' :
  setReplicationValue ParseFloat entries q st = Done (q', st') ->
  descr q' = descr q /\ extends st st'.
Proof.
  revert q st. induction entries as [|entry entries IH]; intros q st; cbn [setReplicationValue].
  - intros [= <- <-]. split; [reflexivity | apply extends_refl].
  - destruct (String.eqb _ ""); [apply IH|].
    destruct (parseContextCSN _ _ _ _) as [[[[[[gt count] sid] mod_] err] st1]|] eqn:Hp;
      cbn [mbind go_bind]; [|discriminate].
    apply parseContextCSN_extends in Hp.
    destruct err as [e|]; intros H; apply IH in H as [Hd He].
    + split; [exact Hd | eapply extends_trans; eauto].
    + split; [exact Hd|].
      eapply extends_trans; [exact Hp|]. eapply extends_trans; [|exact He].
      repeat (eapply extends_trans; [|apply extends_Set]). apply extends_refl.
Qed.

Lemma setReplicationDelayValue_extends entries q st st' :
  setReplicationDelayValue entries q st = Done st' -> extends st st'.
Proof.
  revert st. induction entries as [|entry entries IH]; intros st; cbn [setReplicationDelayValue].
  - intros [= <-]. apply extends_refl.
  - destruct (String.eqb _ ""); [apply IH|].
    destruct (index _ 0) as [v0|]; cbn [mbind go_bind]; [|discriminate].
    destruct (time.Parse v0) as [t [e|]].
    + intros H. apply IH in H. eapply extends_trans; [apply extends_Log | exact H].
    + destruct (index _ 2) as [sid|]; cbn [mbind go_bind]; [|discriminate].
      intros H. apply IH in H. eapply extends_trans; [apply extends_Set | exact H].
Qed.

Lemma call_setData_frame entries q st q' st' :
  call_setData ParseFloat entries q st = Done (q', st') ->
  descr q' = descr q /\ extends st st'.
Proof.
  unfold call_setData. destruct (setData q).
  - intros [= <- <-]. split; [reflexivity | apply setValue_extends].
  - apply setReplicationValue_frame.
  - destruct (setReplicationDelayValue _ _ _) as [st1|] eqn:H; cbn [mbind go_bind]; [|discriminate].
    intros [= <- <-]. split; [reflexivity|].
    now apply setReplicationDelayValue_extends in H.
Qed.

Lemma scrapeQuery_frame w k q st err q' st' :
  scrapeQuery ParseFloat w k q st = Done (err, q', st') ->
  descr q' = descr q /\ extends st st'
  /\ (err = match search w k with Err e => Some e | Ok _ => None end).
Proof.
  unfold scrapeQuery. destruct (search w k) as [entries|e].
  - destruct (call_setData _ _ _ _) as [[q1 st1]|] eqn:H; cbn [mbind go_bind]; [|discriminate].
    intros [= <- <- <-]. apply call_setData_frame in H as [Hd He].
    split; [exact Hd|]. split; [|reflexivity].
    eapply extends_trans; [apply extends_Send | exact He].
  - intros [= <- <- <-]. split; [reflexivity|]. split; [apply extends_Send | reflexivity].
Qed.

Lemma queryMasterContext_extends s w k q st :
  extends st (snd (queryMasterContext s w k q st)).
Proof.
  unfold queryMasterContext.
  destruct (masterDial w k); [|destruct (masterBind w k)]; cbn [snd];
    repeat (eapply extends_trans; [|solve [eauto with frames]]); apply extends_refl.
Qed.

Lemma delayCheck_extends s w k q ret st fl st' :
  delayCheck s w k q ret st = Done (fl, st') -> extends st st'.
Proof.
  unfold delayCheck.
  destruct (String.eqb _ _); [|intros [= <- <-]; apply extends_refl].
  destruct (LdapSyncTimeDetal s); [|intros [= <- <-]; apply extends_refl].
  pose proof (queryMasterContext_extends s w k q st) as Hm.
  destruct (queryMasterContext s w k q st) as [sr st1]; cbn [snd] in Hm.
  destruct sr as [[|entry rest]|e].
  - intros [= <- <-]. eapply extends_trans; [exact Hm | apply extends_Log].
  - destruct (String.eqb _ ""); [now intros [= <- <-]|].
    destruct (index _ 0) as [v0|]; cbn [mbind go_bind]; [|discriminate].
    destruct (time.Parse v0) as [t [e|]].
    + intros [= <- <-]. eapply extends_trans; [exact Hm | apply extends_Log].
    + destruct (index _ 2) as [sid|]; cbn [mbind go_bind]; [|discriminate].
      intros [= <- <-]. eapply extends_trans; [exact Hm | apply extends_Set].
  - intros [= <- <-]. eapply extends_trans; [exact Hm | apply extends_Log].
Qed.

End Frames.

(** ** The control flow of a cycle *)

Lemma descr_searchAttr q q' : descr q' = descr q -> searchAttr q' = searchAttr q.
Proof. unfold descr. now intros [= _ _ -> _ _]. Qed.

Lemma descr_delayChecked s q q' : descr q' = descr q -> delayChecked s q' = delayChecked s q.
Proof. intros H. unfold delayChecked. now rewrite (descr_searchAttr _ _ H). Qed.

Lemma descr_primaryCheckFails w k q q' :
  descr q' = descr q -> primaryCheckFails w k q' = primaryCheckFails w k q.
Proof. intros H. unfold primaryCheckFails. now rewrite (descr_searchAttr _ _ H). Qed.

Lemma delayCheck_flow s w k q ret st fl st' :
  delayCheck s w k q ret st = Done (fl, st') ->
  fl = if delayChecked s q && primaryCheckFails w k q then Return false else Continue ret.
Proof.
  unfold delayCheck, delayChecked, primaryCheckFails, queryMasterContext.
  destruct (String.eqb _ _); [|now intros [= <- <-]].
  destruct (LdapSyncTimeDetal s); [|now intros [= <- <-]].
  cbn [andb].
  destruct (masterDial w k); [now intros [= <- <-]|].
  destruct (masterBind w k); [now intros [= <- <-]|].
  destruct (masterSearch w k) as [[|entry rest]|e]; try (now intros [= <- <-]).
  destruct (String.eqb _ ""); [now intros [= <- <-]|]. cbn [negb andb].
  destruct (Split _ sharp) as [|v0 vs]; [discriminate|].
  cbn [index nth_error mbind go_bind]. unfold time.Parse.
  destruct (time.Parse_layout v0); [|now intros [= <- <-]].
  destruct vs as [|v1 [|sid vs]]; try discriminate.
  now intros [= <- <-].
Qed.

Section Flow.

Variable ParseFloat : string -> float64 * option error.

Lemma scrapeBody_frame s w k q ret st fl q' st' :
  scrapeBody ParseFloat s w k q ret st = Done (fl, q', st') ->
  descr q' = descr q /\ extends st st'
  /\ fl = if delayChecked s q && primaryCheckFails w k q then Return false
          else Continue (ret && negb (searchFails w k)).
Proof.
  unfold scrapeBody.
  destruct (scrapeQuery _ _ _ _ _) as [[[err q1] st1]|] eqn:Hq; cbn [mbind go_bind]; [|discriminate].
  apply scrapeQuery_frame in Hq as (Hd & He & Herr).
  set (rs := match err with Some _ => _ | None => _ end).
  assert (Hrs : fst rs = (ret && negb (searchFails w k)) /\ extends st1 (snd rs)).
  { subst rs. unfold searchFails. destruct (search w k); subst err; cbn [fst snd].
    - split; [now rewrite andb_true_r | apply extends_refl].
    - split; [now rewrite andb_false_r | apply extends_Log]. }
  destruct rs as [ret1 st2]; cbn [fst snd] in Hrs. destruct Hrs as [-> He2].
  destruct (delayCheck _ _ _ _ _ _) as [[fl1 st3]|] eqn:Hc; cbn [mbind go_bind]; [|discriminate].
  intros [= <- <- <-].
  split; [exact Hd|]. split.
  - eapply extends_trans; [exact He|]. eapply extends_trans; [exact He2|].
    eapply delayCheck_extends; eauto.
  - apply delayCheck_flow in Hc.
    now rewrite (descr_delayChecked _ _ _ Hd), (descr_primaryCheckFails _ _ _ _ Hd) in Hc.
Qed.

Lemma scrapeLoop_frame s w qs : forall k ret st fl qs' st',
  scrapeLoop ParseFloat s w k qs ret st = Done (fl, qs', st') ->
  map descr qs' = map descr qs /\ extends st st'.
Proof.
  induction qs as [|q qs IH]; intros k ret st fl qs' st'; cbn [scrapeLoop].
  - intros [= <- <- <-]. split; [reflexivity | apply extends_refl].
  - destruct (scrapeBody _ _ _ _ _ _ _) as [[[fl1 q1] st1]|] eqn:Hb; cbn [mbind go_bind]; [|discriminate].
    apply scrapeBody_frame in Hb as (Hd & He & _).
    destruct fl1 as [ret1|b].
    + destruct (scrapeLoop _ _ _ _ _ _ _) as [[[fl2 qs2] st2]|] eqn:Hl; cbn [mbind go_bind]; [|discriminate].
      intros [= <- <- <-]. apply IH in Hl as [Hm He2].
      split; [cbn [map]; now rewrite Hd, Hm | eapply extends_trans; eauto].
    + intros [= <- <- <-]. split; [cbn [map]; now rewrite Hd | exact He].
Qed.

(** What the loop returns, from the answers of the world alone. *)
Lemma scrapeLoop_returned s w qs : forall k ret st fl qs' st',
  scrapeLoop ParseFloat s w k qs ret st = Done (fl, qs', st') ->
  (returned fl = false <->
     ret = false
     \/ (exists i, (i < length qs)%nat /\ searchFails w (k + i) = true)
     \/ (exists i q, qs !! i = Some q /\ delayChecked s q = true
                     /\ primaryCheckFails w (k + i) q = true)).
Proof.
  induction qs as [|q qs IH]; intros k ret st fl qs' st'; cbn [scrapeLoop].
  - intros [= <- <- <-]. cbn [returned]. split; [now left|].
    intros [H|[(i & Hi & _)|(i & q & Hq & _)]]; [exact H | simpl in Hi; lia | now rewrite lookup_nil in Hq].
  - destruct (scrapeBody _ _ _ _ _ _ _) as [[[fl1 q1] st1]|] eqn:Hb; cbn [mbind go_bind]; [|discriminate].
    apply scrapeBody_frame in Hb as (_ & _ & Hfl).
    destruct (delayChecked s q && primaryCheckFails w k q) eqn:Hpc; subst fl1.
    + intros [= <- <- <-]. cbn [returned]. split; [|reflexivity]. intros _.
      right; right. exists 0%nat, q. apply andb_prop in Hpc as [H1 H2].
      now rewrite Nat.add_0_r.
    + destruct (scrapeLoop _ _ _ _ _ _ _) as [[[fl2 qs2] st2]|] eqn:Hl; cbn [mbind go_bind]; [|discriminate].
      intros [= <- <- <-]. apply IH in Hl. rewrite Hl. clear Hl IH. split.
      * intros [H|[(i & Hi & Hs)|(i & q' & Hq & Hd & Hp)]].
        -- apply andb_false_iff in H as [H|H]; [now left|].
           right; left. exists 0%nat. split; [simpl; lia|].
           rewrite Nat.add_0_r. now apply negb_false_iff in H.
        -- right; left. exists (S i). split; [simpl; lia|].
           now replace (k + S i)%nat with (S k + i)%nat by lia.
        -- right; right. exists (S i), q'. split; [exact Hq|]. split; [exact Hd|].
           now replace (k + S i)%nat with (S k + i)%nat by lia.
      * intros [H|[(i & Hi & Hs)|(i & q' & Hq & Hd & Hp)]].
        -- left. now rewrite H.
        -- destruct i as [|i].
           ++ left. rewrite Nat.add_0_r in Hs. rewrite Hs. apply andb_false_r.
           ++ right; left. exists i. split; [simpl in Hi; lia|].
              now replace (S k + i)%nat with (k + S i)%nat by lia.
        -- destruct i as [|i].
           ++ simpl in Hq. injection Hq as <-. rewrite Nat.add_0_r in Hp.
              rewrite Hd, Hp in Hpc. discriminate.
           ++ right; right. exists i, q'. split; [exact Hq|]. split; [exact Hd|].
              now replace (S k + i)%nat with (k + S i)%nat by lia.
Qed.

Lemma connect_extends s w st :
  match connect s w st with inl st0 | inr st0 => extends st st0 end.
Proof.
  unfold connect. destruct (dial w).
  - eapply extends_trans; [apply extends_Send | apply extends_Log].
  - destruct (_ && _); [|apply extends_Send].
    destruct (bind w).
    + repeat (eapply extends_trans; [|solve [eauto with frames]]). apply extends_refl.
    + eapply extends_trans; apply extends_Send.
Qed.

Lemma connect_fails s w st :
  (exists st0, connect s w st = inr st0) <->
  dial w <> None
  \/ (negb (String.eqb (User s) "") && negb (String.eqb (Pass s) "") = true
      /\ bind w <> None).
Proof.
  unfold connect. destruct (dial w) as [e|].
  - split; [now left | eauto].
  - destruct (_ && _).
    + destruct (bind w) as [e|].
      * split; [now right | eauto].
      * split; [now intros [? [=]] | now intros [?|[_ ?]]].
    + split; [now intros [? [=]] | now intros [?|[[=] _]]].
Qed.

Lemma scrape_frame s w qs st b qs' st' :
  scrape ParseFloat s w qs st = Done (b, qs', st') ->
  map descr qs' = map descr qs /\ extends st st'.
Proof.
  unfold scrape. pose proof (connect_extends s w st) as Hc.
  destruct (connect s w st) as [st0|st0].
  - destruct (scrapeLoop _ _ _ _ _ _ _) as [[[fl qs1] st1]|] eqn:Hl; cbn [mbind go_bind]; [|discriminate].
    intros [= <- <- <-]. apply scrapeLoop_frame in Hl as [Hm He].
    split; [exact Hm|]. eapply extends_trans; [exact Hc|].
    eapply extends_trans; [exact He | apply extends_Send].
  - intros [= <- <- <-]. now split.
Qed.

(** C3, as the code has it. A cycle that completes fails exactly when the
    dial failed, or the bind (made when both credentials are set) failed,
    or the search of some query of the catalog failed, or the cross-check
    against the primary failed for some replication query with delay
    checking on (dial, bind or search failure, an empty result, or a first
    field that does not parse as generalized time); in every other case,
    skipped attribute parses included, it succeeds. *)
Theorem scrape_outcome s w qs st b qs' st' :
  scrape ParseFloat s w qs st = Done (b, qs', st') ->
  (b = false <->
     dial w <> None
     \/ (negb (String.eqb (User s) "") && negb (String.eqb (Pass s) "") = true
         /\ bind w <> None)
     \/ (exists k, (k < length qs)%nat /\ searchFails w k = true)
     \/ (exists k q, qs !! k = Some q /\ delayChecked s q = true
                     /\ primaryCheckFails w k q = true)).
Proof.
  unfold scrape. pose proof (connect_fails s w st) as Hc.
  destruct (connect s w st) as [st0|st0].
  - destruct (scrapeLoop _ _ _ _ _ _ _) as [[[fl qs1] st1]|] eqn:Hl; cbn [mbind go_bind]; [|discriminate].
    intros [= <- <- <-]. apply scrapeLoop_returned in Hl. rewrite Hl. cbn [Nat.add].
    split.
    + intros [H|H]; [discriminate | now do 2 right].
    + intros [H|[H|H]]; [| |now right].
      * assert (exists st1, @inl Env Env st0 = inr st1) as [? [=]] by (apply Hc; now left).
      * assert (exists st1, @inl Env Env st0 = inr st1) as [? [=]] by (apply Hc; now right).
  - intros [= <- <- <-]. split; [|reflexivity]. intros _.
    destruct Hc as [Hc _]. destruct Hc as [H|H]; [now eexists | now left | right; now left].
Qed.

End Flow.

Lemma scrape_outcome_witness :
  false = false <->
    dial (refusing 0 "timeout") <> None
    \/ (negb (String.eqb (User exporter) "") && negb (String.eqb (Pass exporter) "") = true
        /\ bind (refusing 0 "timeout") <> None)
    \/ (exists k, (k < length queries)%nat /\ searchFails (refusing 0 "timeout") k = true)
    \/ (exists k q, queries !! k = Some q /\ delayChecked exporter q = true
                    /\ primaryCheckFails (refusing 0 "timeout") k q = true).
Proof.
  eapply (scrape_outcome strconv.ParseFloat exporter (refusing 0 "timeout")
            queries emptyEnv false).
  reflexivity.
Defined.

(** C3, a counterexample to the specification as written: the dial succeeds, no bind
    is made, delay checking is off, and the cycle fails, on the failed
    search of the first query. *)
Lemma scrape_fails_without_dial_bind_or_primary :
  dial (refusing 0 "timeout") = None
  /\ bind (refusing 0 "timeout") = None
  /\ LdapSyncTimeDetal exporter = false
  /\ exists qs st,
       scrape strconv.ParseFloat exporter (refusing 0 "timeout") queries emptyEnv
       = Done (false, qs, st).
Proof. repeat split. do 2 eexists. reflexivity. Qed.

(** ** A failed search *)

(** What the delay check publishes, and when it ends the cycle. *)
Lemma point_Set g lvs v st : point (Set_ g lvs v st) g lvs = Some v.
Proof. unfold point, Set_; cbn [gauges]. apply lookup_insert_eq. Qed.

Lemma delayCheck_publishes s w k q ret st entry rest val T f1 sid more t :
  searchAttr q = monitorReplicationFilter ->
  LdapSyncTimeDetal s = true ->
  masterDial w k = None -> masterBind w k = None ->
  masterSearch w k = Ok (entry :: rest) ->
  GetAttributeValue entry (searchAttr q) = val -> val <> "" ->
  Split val sharp = T :: f1 :: sid :: more ->
  time.Parse T = (t, None) ->
  exists st',
    delayCheck s w k q ret st
    = Done (Continue ret,
            Set_ (metric q) [sid; "delay"]
              (float64_sub (float64_of_int (time.Unix t)) (RepolicateResult q)) st').
Proof.
  intros Ha Hon Hd Hb Hs Hv Hne HS Ht.
  unfold delayCheck, queryMasterContext. rewrite Ha, Hon, Hd, Hb, Hs.
  cbn [String.eqb Ascii.eqb Bool.eqb monitorReplicationFilter].
  rewrite <- Ha, Hv. apply String.eqb_neq in Hne. rewrite Hne, HS.
  cbn [index nth_error mbind go_bind]. rewrite Ht.
  cbn [mbind go_bind]. eexists. reflexivity.
Qed.


Section SearchError.

Variable ParseFloat : string -> float64 * option error.




End SearchError.



(** ** [float64]: integers below [2^53] are exact *)

Lemma digits2_pos_size p : digits2_pos p = Pos.size p.
Proof. induction p; simpl; congruence. Qed.

Lemma iter_pos_iter {A} (f : A -> A) p : forall x, SpecFloat.iter_pos f p x = Pos.iter f x p.
Proof.
  induction p as [p IH|p IH|]; intros x; simpl.
  - rewrite !IH. rewrite <- !Pos.iter_swap. reflexivity.
  - now rewrite !IH.
  - reflexivity.
Qed.

Lemma size_iter_xO m p : Zpos (Pos.size (Pos.iter xO m p)) = Zpos (Pos.size m) + Zpos p.
Proof.
  induction p as [|p IH] using Pos.peano_ind.
  - simpl. lia.
  - rewrite Pos.iter_succ. simpl Pos.size. lia.
Qed.

Lemma shr_iter_xO m p :
  Pos.iter shr_1 (Build_shr_record (Zpos (Pos.iter xO m p)) false false) p
  = Build_shr_record (Zpos m) false false.
Proof.
  induction p as [|p IH] using Pos.peano_ind.
  - reflexivity.
  - rewrite Pos.iter_succ_r, Pos.iter_succ. simpl shr_1. exact IH.
Qed.

Lemma shl_add m a b : 0 <= a -> 0 <= b -> shl m (a + b) = shl (shl m b) a.
Proof.
  intros Ha Hb. destruct a as [|a|a]; [now rewrite Z.add_0_l| |lia].
  destruct b as [|b|b]; [now rewrite Z.add_0_r| |lia].
  simpl. apply Pos.iter_add.
Qed.

Lemma size_shl m n : 0 <= n -> Zpos (Pos.size (shl m n)) = Zpos (Pos.size m) + n.
Proof.
  destruct n as [|p|p]; intros H; [simpl; lia| |lia]. apply size_iter_xO.
Qed.

Lemma Zdigits2_shl m n : 0 <= n -> Zdigits2 (Zpos (shl m n)) = Zpos (Pos.size m) + n.
Proof. intros H. unfold Zdigits2. rewrite digits2_pos_size. now apply size_shl. Qed.

Lemma shr_shl m a b :
  0 <= b ->
  Pos.iter shr_1 (Build_shr_record (Zpos (shl m (Zpos a + b))) false false) a
  = Build_shr_record (Zpos (shl m b)) false false.
Proof. intros Hb. rewrite shl_add by lia. apply shr_iter_xO. Qed.

Lemma binary_round_shl (s : bool) (m : positive) (k : Z) :
  0 <= k ->
  Zpos (Pos.size m) <= 53 ->
  binary_round 53 1024 s (shl m k) (- k)
  = S754_finite s (shl m (53 - Zpos (Pos.size m))) (Zpos (Pos.size m) - 53).
Proof.
  intros Hk Hd. set (d := Zpos (Pos.size m)) in *.
  assert (Hd1 : 1 <= d) by (unfold d; lia).
  assert (Hf : fexp 53 1024 d = d - 53) by (unfold fexp, emin; lia).
  assert (Haux : binary_round_aux 53 1024 s (Zpos (shl m (53 - d))) (d - 53) loc_Exact
                 = S754_finite s (shl m (53 - d)) (d - 53)).
  { unfold binary_round_aux, shr_fexp.
    rewrite (Zdigits2_shl m (53 - d)) by lia. fold d.
    replace (d + (53 - d) + (d - 53)) with d by lia. rewrite Hf.
    replace (d - 53 - (d - 53)) with 0 by lia.
    cbn [shr shr_record_of_loc shr_m loc_of_shr_record round_nearest_even].
    rewrite (Zdigits2_shl m (53 - d)) by lia. fold d.
    replace (d + (53 - d) + (d - 53)) with d by lia. rewrite Hf.
    replace (d - 53 - (d - 53)) with 0 by lia. cbn [shr shr_m].
    destruct (Z.leb_spec (d - 53) (1024 - 53)); [reflexivity | lia]. }
  unfold binary_round.
  rewrite digits2_pos_size, (size_shl m k Hk). fold d.
  replace (d + k + - k) with d by lia. rewrite Hf.
  unfold shl_align.
  destruct (d - 53 - - k) as [|p|p] eqn:Hp.
  - assert (k = 53 - d) by lia. subst k. replace (- (53 - d)) with (d - 53) by lia.
    exact Haux.
  - (* the mantissa is too long: shift right by p, exactly *)
    assert (Hk' : k = Zpos p + (53 - d)) by lia.
    unfold binary_round_aux, shr_fexp.
    rewrite (Zdigits2_shl m k) by lia. fold d.
    replace (d + k + - k) with d by lia. rewrite Hf, Hp.
    assert (E : Pos.iter shr_1 (Build_shr_record (Zpos (shl m k)) false false) p
                = Build_shr_record (Zpos (shl m (53 - d))) false false).
    { rewrite Hk' at 1. apply shr_shl. lia. }
    cbn [shr shr_record_of_loc]. rewrite iter_pos_iter, !E.
    cbn [shr_m loc_of_shr_record round_nearest_even].
    rewrite (Zdigits2_shl m (53 - d)) by lia. fold d.
    replace (- k + Zpos p) with (d - 53) by lia.
    replace (d + (53 - d) + (d - 53)) with d by lia. rewrite Hf.
    replace (d - 53 - (d - 53)) with 0 by lia. cbn [shr shr_m].
    destruct (Z.leb_spec (d - 53) (1024 - 53)); [reflexivity | lia].
  - (* the mantissa is too short: shift left by p *)
    change (Pos.iter xO (shl m k) p) with (shl (shl m k) (Zpos p)).
    rewrite <- shl_add by lia.
    replace (Zpos p + k) with (53 - d) by lia. exact Haux.
Qed.

Lemma size_le_53 m : Zpos m < 2 ^ 53 -> Zpos (Pos.size m) <= 53.
Proof.
  intros H. pose proof (Pos.size_le m) as Hs.
  apply Pos2Z.pos_le_pos in Hs. rewrite Pos2Z.inj_pow in Hs.
  destruct (Z_le_gt_dec (Zpos (Pos.size m)) 53) as [|Hgt]; [assumption|].
  assert (2 ^ 54 <= 2 ^ Zpos (Pos.size m)) by (apply Z.pow_le_mono_r; lia).
  change (Zpos m~0) with (2 * Zpos m) in Hs. lia.
Qed.

Lemma Zpos_shl m n : 0 <= n -> Zpos (shl m n) = Zpos m * 2 ^ n.
Proof.
  destruct n as [|p|p]; intros H; [simpl; lia| |lia].
  cbn [shl]. induction p as [|p IH] using Pos.peano_ind.
  - simpl. lia.
  - rewrite Pos.iter_succ, Pos2Z.inj_succ, Z.pow_succ_r by lia.
    change (Zpos (Pos.iter xO m p)~0) with (2 * Zpos (Pos.iter xO m p)). lia.
Qed.

Lemma shl_inj_Z m z n : 0 <= n -> Zpos z = Zpos m * 2 ^ n -> z = shl m n.
Proof. intros Hn H. rewrite <- (Zpos_shl m n Hn) in H. now injection H. Qed.

Lemma float64_of_int_pos m : Zpos m < 2 ^ 53 -> float64_of_int (Zpos m) = canon false m.
Proof.
  intros H. unfold float64_of_int, binary_normalize.
  exact (binary_round_shl false m 0 (Z.le_refl 0) (size_le_53 m H)).
Qed.

Lemma float64_of_int_neg m : Zpos m < 2 ^ 53 -> float64_of_int (Zneg m) = canon true m.
Proof.
  intros H. unfold float64_of_int, binary_normalize.
  exact (binary_round_shl true m 0 (Z.le_refl 0) (size_le_53 m H)).
Qed.

(** Rounding an integer below [2^53], given with trailing zero bits. *)
Lemma binary_normalize_exact (n z k : Z) :
  0 <= k -> Z.abs n < 2 ^ 53 -> z = n * 2 ^ k ->
  binary_normalize 53 1024 z (- k) false = float64_of_int n.
Proof.
  intros Hk Hn ->. assert (0 < 2 ^ k) by (apply Z.pow_pos_nonneg; lia).
  destruct n as [|m|m].
  - reflexivity.
  - rewrite float64_of_int_pos by (simpl in Hn; lia).
    destruct (Zpos m * 2 ^ k) as [|z|z] eqn:E; [lia| |lia].
    cbn [binary_normalize]. symmetry in E. apply shl_inj_Z in E; [|exact Hk]. subst z.
    apply binary_round_shl; [exact Hk | apply size_le_53; simpl in Hn; lia].
  - rewrite float64_of_int_neg by (simpl in Hn; lia).
    destruct (Zneg m * 2 ^ k) as [|z|z] eqn:E; [lia|lia|].
    cbn [binary_normalize].
    assert (E' : Zpos z = Zpos m * 2 ^ k) by lia.
    apply shl_inj_Z in E'; [|exact Hk]. subst z.
    apply binary_round_shl; [exact Hk | apply size_le_53; simpl in Hn; lia].
Qed.

Lemma fst_shl_align mx ex ez :
  ez <= ex -> fst (shl_align mx ex ez) = shl mx (ex - ez).
Proof.
  intros H. unfold shl_align.
  destruct (ez - ex) as [|p|p] eqn:E; cbn [fst].
  - now replace (ex - ez) with 0 by lia.
  - lia.
  - now replace (ex - ez) with (Zpos p) by lia.
Qed.

(** The integer a canonical float stands for, scaled to the exponent [ez]. *)
Lemma aligned_canon (s : bool) (m : positive) (ez : Z) :
  Zpos (Pos.size m) <= 53 -> ez <= Zpos (Pos.size m) - 53 ->
  cond_Zopp s (Zpos (fst (shl_align (shl m (53 - Zpos (Pos.size m)))
                                    (Zpos (Pos.size m) - 53) ez)))
  = cond_Zopp s (Zpos m) * 2 ^ (- ez).
Proof.
  intros Hd He. rewrite fst_shl_align by exact He.
  rewrite <- shl_add by lia.
  replace (Zpos (Pos.size m) - 53 - ez + (53 - Zpos (Pos.size m))) with (- ez) by lia.
  rewrite Zpos_shl by lia. destruct s; cbn [cond_Zopp]; lia.
Qed.

Lemma float64_of_int_canon (n : Z) :
  n <> 0 -> Z.abs n < 2 ^ 53 ->
  float64_of_int n = canon (n <? 0) (Z.to_pos (Z.abs n))
  /\ cond_Zopp (n <? 0) (Zpos (Z.to_pos (Z.abs n))) = n.
Proof.
  intros H0 Hn. destruct n as [|m|m]; [congruence| |].
  - split; [apply float64_of_int_pos; simpl in Hn; lia | reflexivity].
  - split; [apply float64_of_int_neg; simpl in Hn; lia | reflexivity].
Qed.

(** Subtraction of integers is exact on [float64] below [2^53]. *)
Lemma float64_sub_exact (a b : Z) :
  Z.abs a < 2 ^ 53 -> Z.abs b < 2 ^ 53 -> Z.abs (a - b) < 2 ^ 53 ->
  float64_sub (float64_of_int a) (float64_of_int b) = float64_of_int (a - b).
Proof.
  intros Ha Hb Hab.
  destruct (Z.eq_dec a 0) as [->|Ha0]; [|destruct (Z.eq_dec b 0) as [->|Hb0]].
  - destruct b as [|m|m]; [reflexivity| |].
    + rewrite float64_of_int_pos by (simpl in Hb; lia).
      change (0 - Zpos m) with (Zneg m).
      now rewrite float64_of_int_neg by (simpl in Hb; lia).
    + rewrite float64_of_int_neg by (simpl in Hb; lia).
      change (0 - Zneg m) with (Zpos m).
      now rewrite float64_of_int_pos by (simpl in Hb; lia).
  - rewrite Z.sub_0_r. destruct (float64_of_int_canon a Ha0 Ha) as [-> _]. reflexivity.
  - destruct (float64_of_int_canon a Ha0 Ha) as [-> Ea].
    destruct (float64_of_int_canon b Hb0 Hb) as [-> Eb].
    set (ma := Z.to_pos (Z.abs a)) in *. set (mb := Z.to_pos (Z.abs b)) in *.
    assert (Hda : Zpos (Pos.size ma) <= 53) by (apply size_le_53; unfold ma; lia).
    assert (Hdb : Zpos (Pos.size mb) <= 53) by (apply size_le_53; unfold mb; lia).
    unfold float64_sub, canon. cbn [SFsub].
    set (ez := Z.min (Zpos (Pos.size ma) - 53) (Zpos (Pos.size mb) - 53)).
    rewrite !aligned_canon by (unfold ez; lia). rewrite Ea, Eb.
    replace ez with (- - ez) at 3 by lia.
    apply binary_normalize_exact; [unfold ez; lia | exact Hab | lia].
Qed.

(** ** The delay against the primary *)

Section Delay.

Variable ParseFloat : string -> float64 * option error.

(** A decoded token caches the epoch seconds of an accepted time. *)
Lemma parseContextCSN_gt val f st gt count sid mod_ st1 :
  parseContextCSN ParseFloat val f st = Done ((gt, count, sid, mod_, None), st1) ->
  exists t, gt = float64_of_int (time.Unix t) /\ Z.abs (time.Unix t) < 2 ^ 39.
Proof.
  unfold parseContextCSN.
  destruct (index (Split val sharp) 0) as [v0|]; cbn [mbind go_bind]; [|discriminate].
  destruct (time.Parse v0) as [t [e|]] eqn:Ht; [discriminate|].
  destruct (index (Split val sharp) 1) as [v1|]; cbn [mbind go_bind]; [|discriminate].
  destruct (ParseFloat v1) as [c [e|]]; [discriminate|].
  destruct (index (Split val sharp) 2) as [v2|]; cbn [mbind go_bind]; [|discriminate].
  destruct (index (Split val sharp) 3) as [v3|]; cbn [mbind go_bind]; [|discriminate].
  destruct (ParseFloat v3) as [m [e|]]; [discriminate|].
  intros [= <- _ _ _ _]. exists t. split; [reflexivity|].
  eapply Unix_bound, Parse_ok, Ht.
Qed.

Lemma setReplicationValue_cachesEpoch entries : forall q st q' st',
  setReplicationValue ParseFloat entries q st = Done (q', st') ->
  (exists E, cachesEpoch q E) -> exists E', cachesEpoch q' E'.
Proof.
  induction entries as [|entry entries IH]; intros q st q' st'; cbn [setReplicationValue].
  - now intros [= <- <-].
  - destruct (String.eqb _ ""); [apply IH|].
    destruct (parseContextCSN _ _ _ _) as [[[[[[gt count] sid] mod_] err] st1]|] eqn:Hp;
      cbn [mbind go_bind]; [|discriminate].
    destruct err as [e|]; [apply IH|].
    intros H _. apply IH in H; [exact H|].
    apply parseContextCSN_gt in Hp as (t & -> & Ht).
    exists (time.Unix t). split; [reflexivity | exact Ht].
Qed.

(** The cached value stays a number of epoch seconds across a search. *)
Lemma scrapeQuery_cachesEpoch w k q st err q1 st1 :
  scrapeQuery ParseFloat w k q st = Done (err, q1, st1) ->
  (exists E, cachesEpoch q E) -> exists E1, cachesEpoch q1 E1.
Proof.
  unfold scrapeQuery, call_setData. destruct (search w k) as [entries|e].
  - destruct (setData q).
    + now intros [= _ <- _].
    + destruct (setReplicationValue _ _ _ _) as [[q2 st2]|] eqn:H; cbn [mbind go_bind]; [|discriminate].
      intros [= _ <- _]. eapply setReplicationValue_cachesEpoch; eauto.
    + destruct (setReplicationDelayValue _ _ _) as [st2|]; cbn [mbind go_bind]; [|discriminate].
      now intros [= _ <- _].
  - now intros [= _ <- _].
Qed.

(** C5. In a round of the cycle's loop with delay checking on, for a
    replication query whose descriptor caches a number of epoch seconds
    (as every descriptor of the program does), whose local search part
    returns, and whose primary answers with a first entry carrying a token
    of at least three fields with a first field that parses as generalized
    time: the round goes on, and the point it leaves under (server id of
    the primary's token, ["delay"]) is the primary's epoch seconds minus
    the epoch seconds cached on the same descriptor by the local part of
    this round, computed by a [float64] subtraction that is exact. *)
Theorem delay_is_primary_minus_cached
    (s : Scraper) (w : World) (k : nat) (q q1 : query) (ret : bool)
    (st st1 : Env) (err : option error) (entry : Entry) (rest : list Entry)
    (val T f1 sid : string) (more : list string) (t : time.Time) (E0 : Z) :
  searchAttr q = monitorReplicationFilter ->
  LdapSyncTimeDetal s = true ->
  cachesEpoch q E0 ->
  scrapeQuery ParseFloat w k q st = Done (err, q1, st1) ->
  masterDial w k = None -> masterBind w k = None ->
  masterSearch w k = Ok (entry :: rest) ->
  GetAttributeValue entry monitorReplicationFilter = val -> val <> "" ->
  Split val sharp = T :: f1 :: sid :: more ->
  time.Parse T = (t, None) ->
  exists r st' E_local,
    scrapeBody ParseFloat s w k q ret st = Done (Continue r, q1, st')
    /\ cachesEpoch q1 E_local
    /\ point st' (metric q) [sid; "delay"]
       = Some (float64_sub (float64_of_int (time.Unix t)) (RepolicateResult q1))
    /\ point st' (metric q) [sid; "delay"]
       = Some (float64_of_int (time.Unix t - E_local)).
Proof.
  intros Ha Hon Hc0 Hq Hd Hb Hs Hv Hne HS Ht.
  pose proof (scrapeQuery_frame ParseFloat _ _ _ _ _ _ _ Hq) as (Hdescr & _ & _).
  destruct (scrapeQuery_cachesEpoch _ _ _ _ _ _ _ Hq (ex_intro _ E0 Hc0)) as [E1 Hc1].
  assert (Ha1 : searchAttr q1 = monitorReplicationFilter)
    by (now rewrite (descr_searchAttr _ _ Hdescr)).
  assert (Hm : metric q1 = metric q) by (unfold descr in Hdescr; congruence).
  unfold scrapeBody. rewrite Hq. cbn [mbind go_bind].
  set (rs := match err with Some _ => _ | None => _ end). destruct rs as [r st2].
  rewrite <- Ha1 in Hv.
  destruct (delayCheck_publishes s w k q1 r st2 entry rest val T f1 sid more t
              Ha1 Hon Hd Hb Hs Hv Hne HS Ht) as [st3 ->].
  cbn [mbind go_bind]. exists r. eexists. exists E1.
  split; [reflexivity|]. split; [exact Hc1|].
  rewrite Hm, point_Set. split; [reflexivity|].
  destruct Hc1 as [-> HE1]. f_equal.
  pose proof (Unix_bound _ _ (Parse_ok _ _ Ht)) as HU.
  change (2 ^ 39) with 549755813888 in *.
  apply float64_sub_exact; change (2 ^ 53) with 9007199254740992; lia.
Qed.

End Delay.

Lemma delay_is_primary_minus_cached_witness :
  exists r st' E_local,
    scrapeBody strconv.ParseFloat exporterDelay
      (replicating 4 [csnEntry "19700101001640Z#000000#001#000000"]
                     [csnEntry "19700101001650Z#000000#000#000000"])
      4 (replicationQuery peer) true emptyEnv
    = Done (Continue r, set_RepolicateResult (float64_of_int 1000) (replicationQuery peer), st')
    /\ cachesEpoch (set_RepolicateResult (float64_of_int 1000) (replicationQuery peer)) E_local
    /\ point st' monitorReplicationGauge ["000"; "delay"]
       = Some (float64_sub (float64_of_int 1010) (float64_of_int 1000))
    /\ point st' monitorReplicationGauge ["000"; "delay"]
       = Some (float64_of_int (1010 - E_local)).
Proof.
  eapply (delay_is_primary_minus_cached strconv.ParseFloat exporterDelay
            (replicating 4 [csnEntry "19700101001640Z#000000#001#000000"]
                           [csnEntry "19700101001650Z#000000#000#000000"])
            4 (replicationQuery peer)
            (set_RepolicateResult (float64_of_int 1000) (replicationQuery peer))
            true emptyEnv _ None
            (csnEntry "19700101001650Z#000000#000#000000") []
            "19700101001650Z#000000#000#000000" "19700101001650Z" "000000" "000"
            ["000000"] (time.mkTime 1970 1 1 0 16 50 0) 0);
    try (vm_compute; reflexivity).
  - split; [reflexivity | vm_compute; reflexivity].
  - discriminate.
Defined.

Example delay_1010_1000 :
  float64_sub (float64_of_int 1010) (float64_of_int 1000) = float64_of_int 10.
Proof. reflexivity. Qed.

(** ** The scrape counter *)

Section Counter.

Variable ParseFloat : string -> float64 * option error.

Lemma counted_Inc l l' st :
  counted (Inc l st) l' = if String.eqb l l' then S (counted st l') else counted st l'.
Proof.
  unfold counted at 1, Inc; cbn [scrapeCounter].
  destruct (String.eqb_spec l l') as [->|Hne].
  - now rewrite lookup_insert_eq.
  - now rewrite lookup_insert_ne.
Qed.

Lemma extends_counted st st' l : extends st st' -> counted st' l = counted st l.
Proof. intros (H & _). unfold counted. now rewrite H. Qed.

(** The counter across [runOnce]. *)
Lemma runOnce_counter (s : Scraper) (w : World) (g g' : State) :
  runOnce ParseFloat s w g = Done g' ->
  exists b qs st,
    scrape ParseFloat s w (catalog g) (env g) = Done (b, qs, st)
    /\ forall l, counted (env g') l
                 = if String.eqb (if b then "ok" else "fail") l
                   then S (counted (env g) l) else counted (env g) l.
Proof.
  unfold runOnce.
  destruct (scrape _ _ _ _ _) as [[[b qs] st]|] eqn:Hs; cbn [mbind go_bind]; [|discriminate].
  intros [= <-]. exists b, qs, st. split; [reflexivity|].
  apply scrape_frame in Hs as [_ He]. cbn [env]. intros l.
  now rewrite counted_Inc, (extends_counted _ _ _ He).
Qed.

(** C6. A cycle that completes increments [scrapeCounter] exactly once: by
    one at ["ok"] when [scrape] returned true, by one at ["fail"] when it
    returned false, and at no other label; nothing in the cycle itself
    touches the counter, however many searches or parses failed in it. *)
Theorem runOnce_counts_once (s : Scraper) (w : World) (g g' : State) :
  runOnce ParseFloat s w g = Done g' ->
  exists b qs st,
    scrape ParseFloat s w (catalog g) (env g) = Done (b, qs, st)
    /\ counted (env g') "ok" = (counted (env g) "ok" + if b then 1 else 0)%nat
    /\ counted (env g') "fail" = (counted (env g) "fail" + if b then 0 else 1)%nat
    /\ (forall l, l <> "ok" -> l <> "fail" -> counted (env g') l = counted (env g) l)
    /\ (counted (env g') "ok" + counted (env g') "fail"
        = S (counted (env g) "ok" + counted (env g) "fail"))%nat.
Proof.
  intros H. destruct (runOnce_counter s w g g' H) as (b & qs & st & Hs & Hc).
  exists b, qs, st. split; [exact Hs|].
  pose proof (Hc "ok") as Hok. pose proof (Hc "fail") as Hfail.
  repeat split.
  - rewrite Hok. destruct b; cbn; lia.
  - rewrite Hfail. destruct b; cbn; lia.
  - intros l H1 H2. rewrite Hc.
    destruct b; [apply not_eq_sym, String.eqb_neq in H1 | apply not_eq_sym, String.eqb_neq in H2].
    + now rewrite H1.
    + now rewrite H2.
  - rewrite Hok, Hfail. destruct b; cbn; lia.
Qed.

(** The counter after the ticks of [Start]: one increment for each. *)
Lemma ticks_count (s : Scraper) (ws : list World) : forall g g',
  ticks ParseFloat s ws g = Done g' ->
  (counted (env g') "ok" + counted (env g') "fail"
   = counted (env g) "ok" + counted (env g) "fail" + length ws)%nat.
Proof.
  induction ws as [|w ws IH]; intros g g'; cbn [ticks].
  - intros [= <-]. simpl. lia.
  - destruct (runOnce _ _ _ _) as [g1|] eqn:Hr; cbn [mbind go_bind]; [|discriminate].
    intros H. apply IH in H.
    destruct (runOnce_counter _ _ _ _ Hr) as (b & qs & st & _ & Hc).
    rewrite H, (Hc "ok"), (Hc "fail"). destruct b; cbn; lia.
Qed.

End Counter.

Lemma runOnce_counts_once_witness :
  exists g',
    runOnce strconv.ParseFloat exporter (refusing 0 "timeout") boot = Done g'
    /\ counted (env g') "fail" = 1%nat /\ counted (env g') "ok" = 0%nat.
Proof.
  eexists. split; [vm_compute; reflexivity|].
  destruct (runOnce_counts_once strconv.ParseFloat exporter (refusing 0 "timeout") boot _
              eq_refl) as (b & qs & st & Hs & Hok & Hfail & _).
  injection Hs as <- _ _. split; [exact Hfail | exact Hok].
Defined.

(** ** The catalog *)

Lemma addReplicationQueries_app (s : Scraper) (qs : list query) :
  addReplicationQueries s qs = (qs ++ map replicationQuery (Sync s))%list.
Proof.
  unfold addReplicationQueries. revert qs.
  induction (Sync s) as [|p ps IH]; intros qs; cbn [fold_left map].
  - now rewrite app_nil_r.
  - now rewrite IH, <- app_assoc.
Qed.

Lemma replicationDescriptors_app p qs qs' :
  replicationDescriptors p (qs ++ qs')
  = (replicationDescriptors p qs ++ replicationDescriptors p qs')%list.
Proof. apply List.filter_app. Qed.

Lemma replicationDescriptors_built p ps :
  length (replicationDescriptors p (map replicationQuery ps)) = count_occ string_dec ps p.
Proof.
  induction ps as [|p' ps IH]; [reflexivity|].
  cbn [map replicationDescriptors List.filter replicationQuery q_baseDN searchAttr count_occ].
  fold (replicationDescriptors p (map replicationQuery ps)).
  rewrite String.eqb_refl, andb_true_r.
  destruct (string_dec p' p) as [->|Hne].
  - rewrite String.eqb_refl. cbn [length]. now rewrite IH.
  - apply String.eqb_neq in Hne. now rewrite Hne.
Qed.

Lemma replicationDescriptors_static p : replicationDescriptors p queries = [].
Proof.
  unfold replicationDescriptors, queries.
  cbn [List.filter searchAttr String.eqb Ascii.eqb Bool.eqb monitorReplicationFilter
       monitoredInfo monitorCounter monitorOpCompleted].
  now rewrite !andb_false_r.
Qed.

(** C8, as the code has it. Every construction appends one replication
    descriptor for each entry of the configured peer list to the catalog as
    it stands; after [n] constructions the catalog holds, for a peer, [n]
    descriptors for each time the peer is configured, on top of those it
    held before.  There is one descriptor for a peer configured once only
    after a single construction. *)
Theorem addReplicationQueries_appends (s : Scraper) (p : string) (qs : list query) (n : nat) :
  addReplicationQueries s qs = (qs ++ map replicationQuery (Sync s))%list
  /\ length (replicationDescriptors p (Nat.iter n (addReplicationQueries s) qs))
     = (length (replicationDescriptors p qs) + n * count_occ string_dec (Sync s) p)%nat
  /\ length (replicationDescriptors p (Nat.iter n (addReplicationQueries s) queries))
     = (n * count_occ string_dec (Sync s) p)%nat.
Proof.
  assert (H : forall qs0,
    length (replicationDescriptors p (Nat.iter n (addReplicationQueries s) qs0))
    = (length (replicationDescriptors p qs0) + n * count_occ string_dec (Sync s) p)%nat).
  { intros qs0. induction n as [|n IH]; simpl Nat.iter; [lia|].
    rewrite addReplicationQueries_app, replicationDescriptors_app, length_app, IH,
      replicationDescriptors_built. lia. }
  split; [apply addReplicationQueries_app|]. split; [apply H|].
  rewrite H, replicationDescriptors_static. reflexivity.
Qed.

(** C8, a counterexample to the specification as written: started twice in one
    process, the exporter has two replication descriptors for its one
    peer. *)
Lemma Start_twice_duplicates :
  exists g1 g2,
    Start strconv.ParseFloat exporter [] boot = Done g1
    /\ Start strconv.ParseFloat exporter [] g1 = Done g2
    /\ Sync exporter = [peer]
    /\ replicationDescriptors peer (catalog g2)
       = [replicationQuery peer; replicationQuery peer].
Proof.
  do 2 eexists. split; [reflexivity|]. split; [reflexivity|]. split; reflexivity.
Qed.

Section Static.

Variable ParseFloat : string -> float64 * option error.

Lemma setValue_same entries q st :
  scrapeCounter (setValue ParseFloat entries q st) = scrapeCounter st
  /\ logs (setValue ParseFloat entries q st) = logs st
  /\ net (setValue ParseFloat entries q st) = net st.
Proof.
  revert st. induction entries as [|entry entries IH]; intros st; cbn [setValue].
  - repeat split.
  - destruct (String.eqb _ ""); [apply IH|].
    destruct (ParseFloat _) as [num [e|]]; [apply IH|].
    destruct (IH (Set_ (metric q) [DN entry] num st)) as (-> & -> & ->). repeat split.
Qed.

(** Entries of other names leave a point as it is. *)
Lemma setValue_point_other entries q dn : forall st,
  Forall (fun e' => DN e' <> dn) entries ->
  point (setValue ParseFloat entries q st) (metric q) [dn] = point st (metric q) [dn].
Proof.
  induction entries as [|entry entries IH]; intros st H; cbn [setValue]; [reflexivity|].
  inversion H as [|? ? Hne Hrest]; subst.
  destruct (String.eqb _ ""); [now apply IH|].
  destruct (ParseFloat _) as [num [e|]]; [now apply IH|].
  rewrite (IH _ Hrest). unfold point, Set_; cbn [gauges].
  apply lookup_insert_ne. congruence.
Qed.

(** The last entry of a name with a numeric value decides its point. *)
Lemma setValue_point_last l1 entry l2 q val num st :
  GetAttributeValue entry (searchAttr q) = val -> val <> "" ->
  ParseFloat val = (num, None) ->
  Forall (fun e' => DN e' <> DN entry) l2 ->
  point (setValue ParseFloat (l1 ++ entry :: l2) q st) (metric q) [DN entry] = Some num.
Proof.
  intros Hv Hne Hp Hl2. revert st.
  induction l1 as [|e1 l1 IH]; intros st; cbn [app setValue].
  - rewrite Hv. apply String.eqb_neq in Hne. rewrite Hne, Hp.
    rewrite (setValue_point_other _ _ _ _ Hl2). unfold point, Set_; cbn [gauges].
    apply lookup_insert_eq.
  - destruct (String.eqb _ ""); [apply IH|].
    destruct (ParseFloat (GetAttributeValue e1 (searchAttr q))) as [n1 [e|]]; apply IH.
Qed.

Lemma net_plainRound w k q st :
  net (plainRound ParseFloat w k q st) = (net st ++ [request q])%list.
Proof.
  unfold plainRound. destruct (search w k) as [entries|e]; [|reflexivity].
  now destruct (setValue_same entries q (Send (request q) st)) as (_ & _ & ->).
Qed.

(** The round of the loop for a plain numeric query. *)
Lemma scrapeBody_plain s w k q ret st :
  setData q = fn_setValue ->
  String.eqb (searchAttr q) monitorReplicationFilter = false ->
  scrapeBody ParseFloat s w k q ret st
  = Done (Continue (ret && negb (searchFails w k)), q, plainRound ParseFloat w k q st).
Proof.
  intros Hfn Hattr.
  unfold scrapeBody, scrapeQuery, call_setData, delayCheck, plainRound, searchFails, request.
  rewrite Hfn. destruct (search w k); cbn [mbind go_bind]; rewrite Hattr.
  - now rewrite andb_true_r.
  - now rewrite andb_false_r.
Qed.

(** On the static catalog every cycle completes: no plain round panics. *)
Lemma scrape_static_returns s w st :
  exists b qs' st', scrape ParseFloat s w queries st = Done (b, qs', st').
Proof.
  unfold scrape. destruct (connect s w st) as [st0|st0]; [|eauto].
  unfold queries. cbn [scrapeLoop].
  rewrite scrapeBody_plain by reflexivity. cbn [mbind go_bind].
  rewrite scrapeBody_plain by reflexivity. cbn [mbind go_bind].
  rewrite scrapeBody_plain by reflexivity. cbn [mbind go_bind].
  rewrite scrapeBody_plain by reflexivity. cbn [mbind go_bind].
  eauto.
Qed.

(** C9. The static catalog has four descriptors; the third and the fourth
    are equal (base DN, filter, attribute, metric and parser), and the
    first three are pairwise different.  A cycle that gets past dial and
    bind therefore always runs four plain rounds before any replication
    query, the third and fourth sending the same search; and for every
    entry the fourth search finds with a numeric value, the point of its DN
    after the fourth round is that value, whatever the third round wrote. *)
Theorem static_catalog_runs_operations_twice :
  length queries = 4%nat
  /\ queries = [objectsQuery; countersQuery; operationsQuery; operationsQuery]
  /\ NoDup [objectsQuery; countersQuery; operationsQuery]
  /\ (forall s w more ret st,
        let r := ret && negb (searchFails w 0) && negb (searchFails w 1)
                 && negb (searchFails w 2) && negb (searchFails w 3) in
        let st2 := plainRound ParseFloat w 1 countersQuery
                     (plainRound ParseFloat w 0 objectsQuery st) in
        let st3 := plainRound ParseFloat w 2 operationsQuery st2 in
        let st4 := plainRound ParseFloat w 3 operationsQuery st3 in
        scrapeLoop ParseFloat s w 0 (queries ++ more) ret st
        = ('(fl, more', st') ← scrapeLoop ParseFloat s w 4 more r st4;
           Done (fl, (queries ++ more')%list, st'))
        /\ net st4 = (net st2 ++ [request operationsQuery; request operationsQuery])%list
        /\ (forall l1 entry l2 val num,
              search w 3 = Ok (l1 ++ entry :: l2)%list ->
              GetAttributeValue entry monitorOpCompleted = val -> val <> "" ->
              ParseFloat val = (num, None) ->
              Forall (fun e' => DN e' <> DN entry) l2 ->
              point st4 monitorOperationGauge [DN entry] = Some num)).
Proof.
  split; [reflexivity|]. split; [reflexivity|]. split.
  - repeat constructor.
    + intros H. repeat (apply elem_of_cons in H as [H|H]; [discriminate H|]).
      now apply elem_of_nil in H.
    + intros H. repeat (apply elem_of_cons in H as [H|H]; [discriminate H|]).
      now apply elem_of_nil in H.
    + intros H. now apply elem_of_nil in H.
  - intros s w more ret st. cbv zeta. split; [|split].
    + change queries with [objectsQuery; countersQuery; operationsQuery; operationsQuery].
      cbn [app scrapeLoop].
      rewrite scrapeBody_plain by reflexivity. cbn [mbind go_bind].
      rewrite scrapeBody_plain by reflexivity. cbn [mbind go_bind].
      rewrite scrapeBody_plain by reflexivity. cbn [mbind go_bind].
      rewrite scrapeBody_plain by reflexivity. cbn [mbind go_bind].
      destruct (scrapeLoop _ _ _ _ more _ _) as [[[fl more'] st']|]; reflexivity.
    + now rewrite !net_plainRound, <- app_assoc.
    + intros l1 entry l2 val num Hs Hv Hne Hp Hl2.
      unfold plainRound at 1. rewrite Hs.
      exact (setValue_point_last l1 entry l2 operationsQuery val num _ Hv Hne Hp Hl2).
Qed.

End Static.

(** ** The binds *)

Lemma net_queryMasterContext s w k q st :
  masterDial w k = None ->
  net (snd (queryMasterContext s w k q st))
  = (net st ++ Dial (Net s) (LdapSyncMasterAddr s)
       :: Bind masterConn (User s) (Pass s)
       :: match masterBind w k with
          | Some _ => [Close masterConn]
          | None => [Search masterConn (q_baseDN q) (searchFilter q) (searchAttr q);
                     Close masterConn]
          end)%list.
Proof.
  intros Hd. unfold queryMasterContext. rewrite Hd.
  destruct (masterBind w k); cbn [snd net Send Log]; now rewrite <- !app_assoc.
Qed.

Lemma net_connect s w st st0 :
  connect s w st = inl st0 ->
  net st0
  = (net st ++ Dial (Net s) (Addr s)
       :: if negb (String.eqb (User s) "") && negb (String.eqb (Pass s) "")
          then [Bind conn (User s) (Pass s)] else [])%list.
Proof.
  unfold connect. destruct (dial w); [discriminate|].
  destruct (_ && _).
  - destruct (bind w); [discriminate|]. intros [= <-]. cbn [net Send].
    now rewrite <- app_assoc.
  - now intros [= <-].
Qed.

Section Binds.

Variable ParseFloat : string -> float64 * option error.

Lemma scrape_primary_failure s w qs st k q b qs' st' :
  qs !! k = Some q ->
  delayChecked s q = true ->
  primaryCheckFails w k q = true ->
  scrape ParseFloat s w qs st = Done (b, qs', st') ->
  b = false.
Proof.
  intros Hq Hd Hp. unfold scrape. destruct (connect s w st) as [st0|st0].
  - destruct (scrapeLoop _ _ _ _ _ _ _) as [[[fl qs1] st1]|] eqn:Hl; cbn [mbind go_bind]; [|discriminate].
    intros [= <- <- <-].
    apply (scrapeLoop_returned ParseFloat _ _ _ _ _ _ _ _ _ Hl).
    right; right. now exists k, q.
  - now intros [= <- <- <-].
Qed.

(** C10. The connection to the primary binds with the configured user
    and password whenever its dial succeeds, empty or not; the main
    connection binds only when both are non-empty.  So with empty
    credentials and delay checking on, no bind goes to the local server,
    an empty bind goes to the primary for each replication query, and a
    cycle fails when the primary rejects that bind. *)
Theorem primary_binds_unconditionally
    (s : Scraper) (w : World) (qs : list query) (st : Env) (k : nat) (q : query) :
  (masterDial w k = None ->
   exists tl,
     net (snd (queryMasterContext s w k q st))
     = (net st ++ Dial (Net s) (LdapSyncMasterAddr s)
          :: Bind masterConn (User s) (Pass s) :: tl)%list)
  /\ (forall st0, connect s w st = inl st0 ->
       net st0
       = (net st ++ Dial (Net s) (Addr s)
            :: if negb (String.eqb (User s) "") && negb (String.eqb (Pass s) "")
               then [Bind conn (User s) (Pass s)] else [])%list)
  /\ (User s = "" -> Pass s = "" ->
       (forall st0, connect s w st = inl st0 ->
          net st0 = (net st ++ [Dial (Net s) (Addr s)])%list)
       /\ (masterDial w k = None ->
           In (Bind masterConn "" "") (net (snd (queryMasterContext s w k q st))))
       /\ (qs !! k = Some q -> delayChecked s q = true ->
           masterDial w k = None -> masterBind w k <> None ->
           forall b qs' st',
             scrape ParseFloat s w qs st = Done (b, qs', st') -> b = false)).
Proof.
  split; [|split].
  - intros Hd. rewrite (net_queryMasterContext s w k q st Hd). now eexists.
  - apply net_connect.
  - intros Hu Hp. split; [|split].
    + intros st0 Hc. rewrite (net_connect s w st st0 Hc), Hu. reflexivity.
    + intros Hd. rewrite (net_queryMasterContext s w k q st Hd), Hu, Hp.
      apply in_or_app. right. right. now left.
    + intros Hq Hdc Hd Hb b qs' st'.
      apply (scrape_primary_failure s w qs st k q b qs' st' Hq Hdc).
      unfold primaryCheckFails. rewrite Hd.
      now destruct (masterBind w k).
Qed.

End Binds.

Lemma primary_binds_unconditionally_witness :
  exists b qs' st',
    scrape strconv.ParseFloat exporterDelay (rejecting "Invalid Credentials")
      (queries ++ [replicationQuery peer]) emptyEnv
    = Done (b, qs', st')
    /\ b = false
    /\ In (Bind masterConn "" "") (net st')
    /\ ~ In (Bind conn "" "") (net st').
Proof.
  do 3 eexists. split; [vm_compute; reflexivity|]. split; [|split].
  - eapply (primary_binds_unconditionally strconv.ParseFloat exporterDelay
              (rejecting "Invalid Credentials") (queries ++ [replicationQuery peer])
              emptyEnv 4 (replicationQuery peer));
      try reflexivity.
    discriminate.
  - cbn. tauto.
  - cbn. intros H. repeat (destruct H as [H|H]; [discriminate H|]). exact H.
Defined.

Lemma static_catalog_runs_operations_twice_witness :
  let w := counting "cn=Bind,cn=Operations,cn=Monitor" "5" "7" in
  point
    (plainRound strconv.ParseFloat w 3 operationsQuery
       (plainRound strconv.ParseFloat w 2 operationsQuery
          (plainRound strconv.ParseFloat w 1 countersQuery
             (plainRound strconv.ParseFloat w 0 objectsQuery emptyEnv))))
    monitorOperationGauge ["cn=Bind,cn=Operations,cn=Monitor"]
  = Some (float64_of_int 7).
Proof.
  intros w.
  destruct (static_catalog_runs_operations_twice strconv.ParseFloat) as (_ & _ & _ & H).
  destruct (H exporter w [] true emptyEnv) as (_ & _ & Hlast).
  apply (Hlast [] (opEntry "cn=Bind,cn=Operations,cn=Monitor" "7") [] "7").
  - reflexivity.
  - reflexivity.
  - discriminate.
  - reflexivity.
  - constructor.
Defined.

(** ** The cached values of the catalog *)

Section Cached.

Variable ParseFloat : string -> float64 * option error.

Lemma catalogCaches_boot : catalogCaches queries.
Proof.
  unfold catalogCaches, queries.
  repeat constructor; exists 0; (split; [reflexivity | vm_compute; reflexivity]).
Qed.

Lemma catalogCaches_addReplicationQueries s qs :
  catalogCaches qs -> catalogCaches (addReplicationQueries s qs).
Proof.
  intros H. rewrite addReplicationQueries_app. apply Forall_app. split; [exact H|].
  induction (Sync s) as [|p ps IH]; cbn [map]; constructor; [|exact IH].
  exists 0. split; [reflexivity | vm_compute; reflexivity].
Qed.

Lemma scrapeLoop_catalogCaches s w qs : forall k ret st fl qs' st',
  scrapeLoop ParseFloat s w k qs ret st = Done (fl, qs', st') ->
  catalogCaches qs -> catalogCaches qs'.
Proof.
  induction qs as [|q qs IH]; intros k ret st fl qs' st'; cbn [scrapeLoop].
  - now intros [= _ <- _].
  - unfold scrapeBody at 1.
    destruct (scrapeQuery _ _ _ _ _) as [[[err q1] st1]|] eqn:Hq; cbn [mbind go_bind]; [|discriminate].
    destruct (match err with Some _ => _ | None => _ end) as [r st2].
    destruct (delayCheck _ _ _ _ _ _) as [[fl1 st3]|]; cbn [mbind go_bind]; [|discriminate].
    intros H Hqs. inversion Hqs as [|? ? Hc Hrest]; subst.
    pose proof (scrapeQuery_cachesEpoch ParseFloat _ _ _ _ _ _ _ Hq Hc) as Hc1.
    destruct fl1 as [r1|b].
    + destruct (scrapeLoop _ _ _ _ qs _ _) as [[[fl2 qs2] st4]|] eqn:Hl; cbn [mbind go_bind] in H; [|discriminate].
      injection H as _ <- _. constructor; [exact Hc1|]. eapply IH; eauto.
    + injection H as _ <- _. now constructor.
Qed.

Lemma runOnce_catalogCaches s w g g' :
  runOnce ParseFloat s w g = Done g' ->
  catalogCaches (catalog g) -> catalogCaches (catalog g').
Proof.
  unfold runOnce, scrape. destruct (connect s w (env g)) as [st0|st0]; cbn [mbind go_bind].
  - destruct (scrapeLoop _ _ _ _ _ _ _) as [[[fl qs] st]|] eqn:Hl; cbn [mbind go_bind]; [|discriminate].
    intros [= <-]. cbn [catalog]. eapply scrapeLoop_catalogCaches; eauto.
  - now intros [= <-].
Qed.

Lemma ticks_catalogCaches s ws : forall g g',
  ticks ParseFloat s ws g = Done g' ->
  catalogCaches (catalog g) -> catalogCaches (catalog g').
Proof.
  induction ws as [|w ws IH]; intros g g'; cbn [ticks].
  - now intros [= <-].
  - destruct (runOnce _ _ _ _) as [g1|] eqn:Hr; cbn [mbind go_bind]; [|discriminate].
    intros H Hg. eapply IH; [exact H|]. eapply runOnce_catalogCaches; eauto.
Qed.

(** X14. Every descriptor of the program caches a number of epoch
    seconds, of the years 0 to 9999: the catalog does when the process
    starts, and [Start] keeps it so over any number of cycles, whatever the
    directory answers. *)
Lemma Start_catalogCaches s ws g' :
  Start ParseFloat s ws boot = Done g' -> catalogCaches (catalog g').
Proof.
  unfold Start. intros H. eapply ticks_catalogCaches; [exact H|]. cbn [catalog boot].
  apply catalogCaches_addReplicationQueries, catalogCaches_boot.
Qed.

End Cached.

(** ** Where the decoder is safe *)

Section Safe.

Variable ParseFloat : string -> float64 * option error.

(** A token of four fields or more is decoded without a panic. *)
Lemma parseContextCSN_four_fields val f st :
  (4 <= length (Split val sharp))%nat ->
  exists r st1, parseContextCSN ParseFloat val f st = Done (r, st1).
Proof.
  intros H. unfold parseContextCSN.
  destruct (Split val sharp) as [|v0 [|v1 [|v2 [|v3 vs]]]]; cbn [length] in H; try lia.
  cbn [index nth_error mbind go_bind].
  destruct (time.Parse v0) as [t [e|]]; [eauto|].
  destruct (ParseFloat v1) as [c [e|]]; cbn [mbind go_bind]; [eauto|].
  destruct (ParseFloat v3) as [m [e|]]; eauto.
Qed.

(** So is a token whose first field is not a generalized time. *)
Lemma parseContextCSN_no_time val f st v0 vs :
  Split val sharp = v0 :: vs ->
  time.Parse_layout v0 = None ->
  exists r e st1, parseContextCSN ParseFloat val f st = Done ((r, Some e), st1).
Proof.
  intros HS Hp. unfold parseContextCSN. rewrite HS.
  cbn [index nth_error mbind go_bind].
  destruct (Parse_error v0 Hp) as [e ->]. eauto.
Qed.

End Safe.

(** * Further properties of the code *)

(** ** The help texts *)

(** X1. [help] joins its arguments with single spaces, so that the
    arguments, when there is one at least and none holds a space, are the
    space-separated fields of the help text. *)
Theorem help_fields (msg : list string) :
  msg <> [] ->
  Forall (fun m => no_sep space m = true) msg ->
  Split (help msg) space = msg.
Proof.
  unfold help. induction msg as [|m rest IH]; [congruence|]. intros _ H.
  inversion H as [|? ? Hm Hrest]; subst. cbn [Join].
  destruct rest as [|m' rest'].
  - now apply Split_last.
  - change (" " ++ Join (m' :: rest') " ") with (String space (Join (m' :: rest') " ")).
    rewrite Split_field by exact Hm. f_equal. apply IH; [discriminate | exact Hrest].
Qed.

Lemma help_fields_witness :
  Split (Help monitorOperationGauge) space
  = ["cn=Operations,cn=Monitor"; "(objectClass=monitorOperation)"; "monitorOpCompleted"].
Proof.
  apply (help_fields [opsBaseDN; objectClass monitorOperation; monitorOpCompleted]).
  - discriminate.
  - repeat constructor.
Defined.

(** ** The plain numeric parser *)

Section Plain.

Variable ParseFloat : string -> float64 * option error.

(** X2. Entries whose attribute is absent, empty or not a number leave
    [setValue] without any effect: no point, no log entry, nothing else. *)
Theorem setValue_skips_unusable (entries : list Entry) (q : query) (st : Env) :
  Forall (unusable ParseFloat (searchAttr q)) entries ->
  setValue ParseFloat entries q st = st.
Proof.
  induction entries as [|entry entries IH]; intros H; cbn [setValue]; [reflexivity|].
  inversion H as [|? ? Hu Hrest]; subst.
  destruct (String.eqb_spec (GetAttributeValue entry (searchAttr q)) "") as [_|Hne];
    [now apply IH|].
  destruct Hu as [Hu|Hu]; [contradiction|].
  destruct (ParseFloat _) as [num [e|]]; [now apply IH | now cbn in Hu].
Qed.

Lemma fqName_inj g g' : fqName g = fqName g' -> g = g'.
Proof. destruct g, g'; (reflexivity || discriminate). Qed.

(** X3. [setValue] writes only points of the descriptor's own metric, and
    only under the DNs of the entries it is given: every other point of
    the sink is as it was, and so are the counter, the log and the
    traffic. *)
Theorem setValue_touches_own_points (entries : list Entry) (q : query) (st : Env)
    (g : GaugeVec) (lvs : list string) :
  g <> metric q \/ Forall (fun e => lvs <> [DN e]) entries ->
  point (setValue ParseFloat entries q st) g lvs = point st g lvs
  /\ scrapeCounter (setValue ParseFloat entries q st) = scrapeCounter st
  /\ logs (setValue ParseFloat entries q st) = logs st
  /\ net (setValue ParseFloat entries q st) = net st.
Proof.
  intros H. split; [|apply setValue_same].
  revert st. induction entries as [|entry entries IH]; intros st; cbn [setValue]; [reflexivity|].
  assert (H' : g <> metric q \/ Forall (fun e => lvs <> [DN e]) entries).
  { destruct H as [H|H]; [now left | right; now inversion H]. }
  destruct (String.eqb _ ""); [now apply IH|].
  destruct (ParseFloat _) as [num [e|]]; [now apply IH|].
  rewrite (IH H'). unfold point, Set_; cbn [gauges].
  apply lookup_insert_ne. intros [= Hn Hl].
  destruct H as [H|H]; [apply H; symmetry; now apply fqName_inj|].
  inversion H; subst. congruence.
Qed.

End Plain.

Lemma setValue_skips_unusable_witness :
  setValue strconv.ParseFloat
    [bareEntry "cn=Monitor"; opEntry "cn=Bind,cn=Operations,cn=Monitor" "abc"]
    operationsQuery emptyEnv
  = emptyEnv.
Proof.
  apply (setValue_skips_unusable strconv.ParseFloat).
  constructor; [left; reflexivity|].
  constructor; [right; discriminate|].
  constructor.
Defined.

Lemma setValue_touches_own_points_witness :
  point
    (setValue strconv.ParseFloat [opEntry "cn=Bind,cn=Operations,cn=Monitor" "5"]
       operationsQuery emptyEnv)
    monitorReplicationGauge ["000"; "gt"]
  = None.
Proof.
  refine (proj1 (setValue_touches_own_points strconv.ParseFloat
            [opEntry "cn=Bind,cn=Operations,cn=Monitor" "5"] operationsQuery emptyEnv
            monitorReplicationGauge ["000"; "gt"] _)).
  left. discriminate.
Defined.


(** ** The replication parser, field by field *)

Lemma silent_refl st : silent st st.
Proof. repeat split. exists []. split; [now rewrite app_nil_r | constructor]. Qed.

Lemma silent_trans st1 st2 st3 : silent st1 st2 -> silent st2 st3 -> silent st1 st3.
Proof.
  intros (Hn & Hc & l & Hl & Hw) (Hn' & Hc' & l' & Hl' & Hw').
  split; [congruence|]. split; [congruence|].
  exists (l ++ l')%list. split; [now rewrite Hl', Hl, app_assoc | now apply Forall_app].
Qed.

Lemma silent_Set g lvs v st : silent st (Set_ g lvs v st).
Proof. repeat split. exists []. split; [simpl; now rewrite app_nil_r | constructor]. Qed.

Lemma silent_Warn f msg st : silent st (Log WarnLevel f msg st).
Proof. repeat split. eexists. split; [reflexivity | now repeat constructor]. Qed.

Section Fields.

Variable ParseFloat : string -> float64 * option error.

(** X4. [parseContextCSN] panics exactly on the tokens whose first field
    parses as generalized time and which either have no second field, or
    have a numeric second field and fewer than four fields; on every other
    string it returns. *)
Theorem parseContextCSN_panics_iff (val : string) (f : Fields) (st : Env) :
  (exists msg, parseContextCSN ParseFloat val f st = Panic msg) <->
  (exists v0 rest,
     Split val sharp = v0 :: rest
     /\ time.Parse_layout v0 <> None
     /\ (rest = []
         \/ exists v1 more,
              rest = v1 :: more /\ snd (ParseFloat v1) = None /\ (length more < 2)%nat)).
Proof.
  unfold parseContextCSN, time.Parse.
  destruct (Split val sharp) as [|v0 rest] eqn:HS; [now apply Split_not_nil in HS|].
  cbn [index nth_error mbind go_bind].
  destruct (time.Parse_layout v0) as [t|] eqn:Hp.
  - destruct rest as [|v1 more]; cbn [index nth_error mbind go_bind].
    + split; [|eauto]. intros _. exists v0, []. split; [reflexivity|].
      split; [congruence | now left].
    + destruct (ParseFloat v1) as [c [e|]] eqn:Hc.
      * split; [now intros [? [=]]|].
        intros (? & ? & [= <- <-] & _ & [[=]|(? & ? & [= <- <-] & Hn & _)]).
        rewrite Hc in Hn. discriminate.
      * destruct more as [|v2 [|v3 more]]; cbn [index nth_error mbind go_bind].
        -- split; [|eauto]. intros _. exists v0, [v1]. split; [reflexivity|].
           split; [congruence|]. right. exists v1, []. rewrite Hc. cbn; auto with lia.
        -- split; [|eauto]. intros _. exists v0, [v1; v2]. split; [reflexivity|].
           split; [congruence|]. right. exists v1, [v2]. rewrite Hc. cbn; auto with lia.
        -- destruct (ParseFloat v3) as [m [e|]].
           ++ split; [now intros [? [=]]|].
              intros (? & ? & [= <- <-] & _ & [[=]|(? & ? & [= <- <-] & _ & Hl)]).
              cbn [length] in Hl. lia.
           ++ split; [now intros [? [=]]|].
              intros (? & ? & [= <- <-] & _ & [[=]|(? & ? & [= <- <-] & _ & Hl)]).
              cbn [length] in Hl. lia.
  - split; [now intros [? [=]]|].
    intros (? & ? & [= <- <-] & Hp' & _). congruence.
Qed.

(** X5. The decoder reads the first four fields of a token and nothing of
    the rest: whatever follows the fourth field, a token with an accepted
    time and numeric second and fourth fields decodes to them and to its
    third field, with no error and no log entry. *)
Theorem parseContextCSN_reads_four_fields (val T C S M : string) (more : list string)
    (t : time.Time) (c m : float64) (f : Fields) (st : Env) :
  Split val sharp = T :: C :: S :: M :: more ->
  time.Parse T = (t, None) ->
  ParseFloat C = (c, None) ->
  ParseFloat M = (m, None) ->
  parseContextCSN ParseFloat val f st
  = Done ((float64_of_int (time.Unix t), c, S, m, None), st).
Proof.
  intros HS Ht Hc Hm. unfold parseContextCSN. rewrite HS.
  cbn [index nth_error mbind go_bind]. rewrite Ht. cbn [mbind go_bind].
  rewrite Hc. cbn [mbind go_bind]. now rewrite Hm.
Qed.

(** X6. An entry whose token has a first field that is no generalized
    time is left with one warning, "unexpected gt value", carrying filter,
    attribute, value and error: no point is written, nothing is cached,
    and the next entry is parsed. *)
Theorem setReplicationValue_bad_time (q : query) (entry : Entry) (entries : list Entry)
    (val v0 : string) (rest : list string) (st : Env) :
  GetAttributeValue entry (searchAttr q) = val ->
  val <> "" ->
  Split val sharp = v0 :: rest ->
  time.Parse_layout v0 = None ->
  exists e,
    setReplicationValue ParseFloat (entry :: entries) q st
    = setReplicationValue ParseFloat entries q
        (Log WarnLevel
           [("filter", searchFilter q); ("attr", searchAttr q); ("value", val); ("error", e)]
           "unexpected gt value" st).
Proof.
  intros Hv Hne HS Hp. destruct (Parse_error v0 Hp) as [e He]. exists e.
  cbn [setReplicationValue]. rewrite Hv. apply String.eqb_neq in Hne. rewrite Hne.
  unfold parseContextCSN. rewrite HS. cbn [index nth_error mbind go_bind].
  rewrite He. reflexivity.
Qed.

(** X7. An entry whose token has an accepted time and a numeric count but
    a fourth field that is not a number is left with one warning,
    "unexpected mod value": no point is written, not even those of the
    time and the count already parsed, and nothing is cached. *)
Theorem setReplicationValue_bad_mod (q : query) (entry : Entry) (entries : list Entry)
    (val T C S M : string) (more : list string) (t : time.Time) (c m : float64)
    (e : error) (st : Env) :
  GetAttributeValue entry (searchAttr q) = val ->
  val <> "" ->
  Split val sharp = T :: C :: S :: M :: more ->
  time.Parse T = (t, None) ->
  ParseFloat C = (c, None) ->
  ParseFloat M = (m, Some e) ->
  setReplicationValue ParseFloat (entry :: entries) q st
  = setReplicationValue ParseFloat entries q
      (Log WarnLevel
         [("filter", searchFilter q); ("attr", searchAttr q); ("value", val); ("error", e)]
         "unexpected mod value" st).
Proof.
  intros Hv Hne HS Ht Hc Hm.
  cbn [setReplicationValue]. rewrite Hv. apply String.eqb_neq in Hne. rewrite Hne.
  unfold parseContextCSN. rewrite HS. cbn [index nth_error mbind go_bind].
  rewrite Ht. cbn [mbind go_bind]. rewrite Hc. cbn [mbind go_bind]. rewrite Hm.
  reflexivity.
Qed.

Lemma setReplicationValue_app l1 l2 : forall q st,
  setReplicationValue ParseFloat (l1 ++ l2) q st
  = '(q1, st1) ← setReplicationValue ParseFloat l1 q st;
    setReplicationValue ParseFloat l2 q1 st1.
Proof.
  induction l1 as [|entry l1 IH]; intros q st; cbn [app setReplicationValue]; [reflexivity|].
  destruct (String.eqb _ ""); [apply IH|].
  destruct (parseContextCSN _ _ _ _) as [[[[[[gt count] sid] mod_] err] st1]|];
    cbn [mbind go_bind]; [|reflexivity].
  destruct err; apply IH.
Qed.

(** X8. The last entry decides: when the entries before it are parsed
    without a panic and the last entry carries a token that decodes, the
    descriptor caches the epoch seconds of that token, and the sink holds
    its time, count and modifier under its server id. *)
Theorem setReplicationValue_last_entry (q q1 : query) (entries : list Entry)
    (entry : Entry) (st st1 : Env) (val T C S M : string) (more : list string)
    (t : time.Time) (c m : float64) :
  setReplicationValue ParseFloat entries q st = Done (q1, st1) ->
  GetAttributeValue entry (searchAttr q) = val ->
  val <> "" ->
  Split val sharp = T :: C :: S :: M :: more ->
  time.Parse T = (t, None) ->
  ParseFloat C = (c, None) ->
  ParseFloat M = (m, None) ->
  exists q' st',
    setReplicationValue ParseFloat (entries ++ [entry]) q st = Done (q', st')
    /\ descr q' = descr q
    /\ RepolicateResult q' = float64_of_int (time.Unix t)
    /\ point st' (metric q) [S; "gt"] = Some (float64_of_int (time.Unix t))
    /\ point st' (metric q) [S; "count"] = Some c
    /\ point st' (metric q) [S; "mod"] = Some m.
Proof.
  intros He Hv Hne HS Ht Hc Hm.
  destruct (setReplicationValue_frame ParseFloat _ _ _ _ _ He) as [Hd _].
  assert (Ha : searchAttr q1 = searchAttr q) by (now apply descr_searchAttr).
  assert (Hmq : metric q1 = metric q) by (unfold descr in Hd; congruence).
  rewrite setReplicationValue_app, He. cbn [mbind go_bind setReplicationValue].
  rewrite Ha, Hv. apply String.eqb_neq in Hne. rewrite Hne.
  unfold parseContextCSN. rewrite HS. cbn [index nth_error mbind go_bind].
  rewrite Ht. cbn [mbind go_bind]. rewrite Hc. cbn [mbind go_bind]. rewrite Hm.
  cbn [mbind go_bind]. do 2 eexists. split; [reflexivity|].
  split; [exact Hd|]. split; [reflexivity|].
  cbn [metric set_RepolicateResult]. rewrite Hmq.
  unfold point, Set_; cbn [gauges].
  repeat split.
  - rewrite lookup_insert_ne by discriminate. rewrite lookup_insert_ne by discriminate.
    apply lookup_insert_eq.
  - rewrite lookup_insert_ne by discriminate. apply lookup_insert_eq.
  - apply lookup_insert_eq.
Qed.

Lemma parseContextCSN_silent val f st r st1 :
  parseContextCSN ParseFloat val f st = Done (r, st1) -> silent st st1.
Proof.
  unfold parseContextCSN.
  destruct (index (Split val sharp) 0) as [v0|]; cbn [mbind go_bind]; [|discriminate].
  destruct (time.Parse v0) as [t [e|]]; [intros [= <- <-]; apply silent_Warn|].
  destruct (index (Split val sharp) 1) as [v1|]; cbn [mbind go_bind]; [|discriminate].
  destruct (ParseFloat v1) as [c [e|]]; [intros [= <- <-]; apply silent_Warn|].
  destruct (index (Split val sharp) 2) as [v2|]; cbn [mbind go_bind]; [|discriminate].
  destruct (index (Split val sharp) 3) as [v3|]; cbn [mbind go_bind]; [|discriminate].
  destruct (ParseFloat v3) as [m [e|]]; intros [= <- <-];
    [apply silent_Warn | apply silent_refl].
Qed.

Lemma setReplicationValue_silent entries : forall q st q' st',
  setReplicationValue ParseFloat entries q st = Done (q', st') -> silent st st'.
Proof.
  induction entries as [|entry entries IH]; intros q st q' st'; cbn [setReplicationValue].
  - intros [= <- <-]. apply silent_refl.
  - destruct (String.eqb _ ""); [apply IH|].
    destruct (parseContextCSN _ _ _ _) as [[[[[[gt count] sid] mod_] err] st1]|] eqn:Hp;
      cbn [mbind go_bind]; [|discriminate].
    apply parseContextCSN_silent in Hp.
    destruct err as [e|]; intros H; apply IH in H.
    + eapply silent_trans; eauto.
    + eapply silent_trans; [exact Hp|]. eapply silent_trans; [|exact H].
      repeat (eapply silent_trans; [|apply silent_Set]). apply silent_refl.
Qed.

(** X9. On entries whose tokens all have four fields or more (or are
    absent) [setReplicationValue] returns: it searches nothing, counts
    nothing, logs nothing but warnings, and leaves the descriptor as it
    was but for the cached value. *)
Theorem setReplicationValue_returns (entries : list Entry) (q : query) (st : Env) :
  Forall (fieldsOrNone 4 (searchAttr q)) entries ->
  exists q' st',
    setReplicationValue ParseFloat entries q st = Done (q', st')
    /\ descr q' = descr q
    /\ silent st st'.
Proof.
  intros H.
  assert (Hd : exists q' st', setReplicationValue ParseFloat entries q st = Done (q', st')).
  { revert q st H. induction entries as [|entry entries IH]; intros q st H;
      cbn [setReplicationValue]; [eauto|].
    inversion H as [|? ? Hf Hrest]; subst.
    destruct (String.eqb_spec (GetAttributeValue entry (searchAttr q)) "") as [_|Hne];
      [now apply IH|].
    destruct Hf as [Hf|Hf]; [contradiction|].
    destruct (parseContextCSN_four_fields ParseFloat _ (valueFields q (GetAttributeValue entry (searchAttr q))) st Hf)
      as ([[[[gt count] sid] mod_] err] & st1 & ->).
    cbn [mbind go_bind]. destruct err; apply IH; exact Hrest. }
  destruct Hd as (q' & st' & Hd). exists q', st'. split; [exact Hd|].
  split; [eapply setReplicationValue_frame; eauto | eapply setReplicationValue_silent; eauto].
Qed.

(** X10. On entries whose tokens all have three fields or more (or are
    absent) [setReplicationDelayValue] returns, with no traffic, no count
    and nothing logged but warnings. *)
Theorem setReplicationDelayValue_returns (entries : list Entry) (q : query) (st : Env) :
  Forall (fieldsOrNone 3 (searchAttr q)) entries ->
  exists st', setReplicationDelayValue entries q st = Done st' /\ silent st st'.
Proof.
  revert st. induction entries as [|entry entries IH]; intros st H;
    cbn [setReplicationDelayValue].
  - eexists. split; [reflexivity | apply silent_refl].
  - inversion H as [|? ? Hf Hrest]; subst.
    destruct (String.eqb_spec (GetAttributeValue entry (searchAttr q)) "") as [_|Hne];
      [now apply IH|].
    destruct Hf as [Hf|Hf]; [contradiction|].
    destruct (Split _ sharp) as [|v0 [|v1 [|v2 vs]]]; cbn [length] in Hf; try lia.
    cbn [index nth_error mbind go_bind].
    destruct (time.Parse v0) as [t [e|]].
    + destruct (IH (Log WarnLevel (WithError e (valueFields q (GetAttributeValue entry (searchAttr q))))
                      "unexpected gt value" st) Hrest) as (st' & -> & Hs).
      eexists. split; [reflexivity|]. eapply silent_trans; [apply silent_Warn | exact Hs].
    + destruct (IH (Set_ (metric q) [v2; "gt"] (float64_of_int (time.Unix t)) st) Hrest)
        as (st' & -> & Hs).
      eexists. split; [reflexivity|]. eapply silent_trans; [apply silent_Set | exact Hs].
Qed.

End Fields.


(** ** The catalog and the counter over the life of the process *)


Section Life.

Variable ParseFloat : string -> float64 * option error.

Lemma ticks_descr s ws : forall g g',
  ticks ParseFloat s ws g = Done g' -> map descr (catalog g') = map descr (catalog g).
Proof.
  induction ws as [|w ws IH]; intros g g'; cbn [ticks].
  - now intros [= <-].
  - destruct (runOnce _ _ _ _) as [g1|] eqn:Hr; cbn [mbind go_bind]; [|discriminate].
    intros H. rewrite (IH _ _ H). unfold runOnce in Hr.
    destruct (scrape _ _ _ _ _) as [[[b qs] st]|] eqn:Hs; cbn [mbind go_bind] in Hr; [|discriminate].
    injection Hr as <-. cbn [catalog]. now apply scrape_frame in Hs.
Qed.

Lemma Start_descr s ws g g' :
  Start ParseFloat s ws g = Done g' ->
  map descr (catalog g') = map descr (catalog g ++ map replicationQuery (Sync s)).
Proof.
  unfold Start. intros H. apply ticks_descr in H. cbn [catalog] in H.
  now rewrite addReplicationQueries_app in H.
Qed.

(** X11. The catalog is not changed structurally after start-up: however
    many cycles run, it holds the descriptors it held when [Start] was
    called followed by one replication descriptor for each configured
    peer, in order, each with its base DN, filter, attribute, metric and
    parser as first built; only cached values differ. *)
Theorem Start_keeps_catalog (s : Scraper) (ws : list World) (g g' : State) :
  Start ParseFloat s ws g = Done g' ->
  map descr (catalog g')
  = (map descr (catalog g) ++ map (fun p => descr (replicationQuery p)) (Sync s))%list
  /\ length (catalog g') = (length (catalog g) + length (Sync s))%nat.
Proof.
  intros H. apply Start_descr in H. rewrite map_app, map_map in H. split; [exact H|].
  apply (f_equal (@length _)) in H.
  now rewrite length_app, !length_map in H.
Qed.


(** X13. The scrape counter counts the ticks: when [Start] returns after
    the ticks [ws], the counts at ["ok"] and ["fail"] have grown by the
    number of ticks together. *)
Theorem Start_counts_ticks (s : Scraper) (ws : list World) (g g' : State) :
  Start ParseFloat s ws g = Done g' ->
  (counted (env g') "ok" + counted (env g') "fail"
   = counted (env g) "ok" + counted (env g) "fail" + length ws)%nat.
Proof. unfold Start. intros H. now apply ticks_count in H. Qed.

(** X15. A cycle whose dial fails, or whose bind fails, returns and is
    counted as failed without a search: the catalog and the sink are as
    they were, and the traffic is the dial alone, or the dial, the bind
    and the close. *)
Theorem runOnce_connect_failure (s : Scraper) (w : World) (g : State) :
  dial w <> None \/ (bindEvent s <> [] /\ bind w <> None) ->
  exists g',
    runOnce ParseFloat s w g = Done g'
    /\ catalog g' = catalog g
    /\ gauges (env g') = gauges (env g)
    /\ counted (env g') "fail" = S (counted (env g) "fail")
    /\ counted (env g') "ok" = counted (env g) "ok"
    /\ net (env g')
       = (net (env g) ++ Dial (Net s) (Addr s)
            :: match dial w with
               | Some _ => []
               | None => [Bind conn (User s) (Pass s); Close conn]
               end)%list.
Proof.
  intros H. unfold runOnce, scrape, connect, bindEvent in *.
  destruct (dial w) as [e|].
  - cbn [mbind go_bind]. eexists. split; [reflexivity|]. cbn [catalog env].
    split; [reflexivity|]. split; [reflexivity|].
    rewrite !counted_Inc. repeat split.
  - destruct H as [H|[Hb H]]; [congruence|].
    destruct (negb _ && negb _); [|congruence].
    destruct (bind w) as [e|]; [|congruence].
    cbn [mbind go_bind]. eexists. split; [reflexivity|]. cbn [catalog env].
    split; [reflexivity|]. split; [reflexivity|].
    rewrite !counted_Inc. split; [reflexivity|]. split; [reflexivity|].
    cbn [net Send Log Inc]. now rewrite <- !app_assoc.
Qed.

End Life.


(** ** The traffic of a cycle *)

Lemma setReplicationDelayValue_silent entries q : forall st st',
  setReplicationDelayValue entries q st = Done st' -> silent st st'.
Proof.
  induction entries as [|entry entries IH]; intros st st'; cbn [setReplicationDelayValue].
  - intros [= <-]. apply silent_refl.
  - destruct (String.eqb _ ""); [apply IH|].
    destruct (index _ 0) as [v0|]; cbn [mbind go_bind]; [|discriminate].
    destruct (time.Parse v0) as [t [e|]].
    + intros H. apply IH in H. eapply silent_trans; [apply silent_Warn | exact H].
    + destruct (index _ 2) as [sid|]; cbn [mbind go_bind]; [|discriminate].
      intros H. apply IH in H. eapply silent_trans; [apply silent_Set | exact H].
Qed.

Lemma paired_app n1 n2 : paired n1 -> paired n2 -> paired (n1 ++ n2).
Proof. unfold paired. rewrite !List.filter_app, !length_app. lia. Qed.

Section Traffic.

Variable ParseFloat : string -> float64 * option error.

Lemma call_setData_net entries q st q' st' :
  call_setData ParseFloat entries q st = Done (q', st') -> net st' = net st.
Proof.
  unfold call_setData. destruct (setData q).
  - intros [= <- <-]. apply setValue_same.
  - intros H. now apply setReplicationValue_silent in H as (-> & _).
  - destruct (setReplicationDelayValue _ _ _) as [st1|] eqn:H; cbn [mbind go_bind]; [|discriminate].
    intros [= <- <-]. now apply setReplicationDelayValue_silent in H as (-> & _).
Qed.

Lemma scrapeQuery_net w k q st err q' st' :
  scrapeQuery ParseFloat w k q st = Done (err, q', st') ->
  net st' = (net st ++ [request q])%list.
Proof.
  unfold scrapeQuery. destruct (search w k) as [entries|e].
  - destruct (call_setData _ _ _ _) as [[q1 st1]|] eqn:H; cbn [mbind go_bind]; [|discriminate].
    intros [= <- <- <-]. now apply call_setData_net in H as ->.
  - now intros [= <- <- <-].
Qed.

Lemma delayCheck_net s w k q ret st fl st' :
  delayCheck s w k q ret st = Done (fl, st') ->
  exists n, net st' = (net st ++ n)%list /\ paired n
            /\ (LdapSyncTimeDetal s = false -> n = []).
Proof.
  unfold delayCheck.
  assert (Hnil : forall st0, net st0 = net st ->
            exists n, net st0 = (net st ++ n)%list /\ paired n
                      /\ (LdapSyncTimeDetal s = false -> n = [])).
  { intros st0 ->. exists []. now rewrite app_nil_r. }
  destruct (String.eqb _ _); [|intros [= <- <-]; now apply Hnil].
  destruct (LdapSyncTimeDetal s); [|intros [= <- <-]; now apply Hnil].
  assert (Hm : exists n, net (snd (queryMasterContext s w k q st)) = (net st ++ n)%list
                         /\ paired n).
  { unfold queryMasterContext. destruct (masterDial w k); [|destruct (masterBind w k)];
      cbn [snd net Send Log]; rewrite <- ?app_assoc; eexists; (split; [reflexivity|]);
      reflexivity. }
  destruct (queryMasterContext s w k q st) as [sr st1]; cbn [snd] in Hm.
  destruct Hm as (n & Hn & Hp).
  assert (Hres : forall st0, net st0 = net st1 ->
            exists n, net st0 = (net st ++ n)%list /\ paired n /\ (true = false -> n = [])).
  { intros st0 ->. exists n. repeat split; [exact Hn | exact Hp | discriminate]. }
  destruct sr as [[|entry rest]|e]; try (intros [= <- <-]; now apply Hres).
  destruct (String.eqb _ ""); [intros [= <- <-]; now apply Hres|].
  destruct (index _ 0) as [v0|]; cbn [mbind go_bind]; [|discriminate].
  destruct (time.Parse v0) as [t [e|]]; [intros [= <- <-]; now apply Hres|].
  destruct (index _ 2) as [sid|]; cbn [mbind go_bind]; [|discriminate].
  intros [= <- <-]. now apply Hres.
Qed.

Lemma scrapeBody_net s w k q ret st fl q' st' :
  scrapeBody ParseFloat s w k q ret st = Done (fl, q', st') ->
  exists n, net st' = (net st ++ request q :: n)%list /\ paired n
            /\ (LdapSyncTimeDetal s = false -> n = [] /\ exists r, fl = Continue r).
Proof.
  unfold scrapeBody.
  destruct (scrapeQuery _ _ _ _ _) as [[[err q1] st1]|] eqn:Hq; cbn [mbind go_bind]; [|discriminate].
  apply scrapeQuery_net in Hq.
  set (rs := match err with Some _ => _ | None => _ end).
  assert (Hrs : net (snd rs) = net st1) by (subst rs; now destruct err).
  destruct rs as [r st2]; cbn [snd] in Hrs.
  destruct (delayCheck _ _ _ _ _ _) as [[fl1 st3]|] eqn:Hc; cbn [mbind go_bind]; [|discriminate].
  intros [= <- <- <-].
  pose proof (delayCheck_flow _ _ _ _ _ _ _ _ Hc) as Hfl.
  apply delayCheck_net in Hc as (n & Hn & Hp & Hoff).
  exists n. split; [|split; [exact Hp|]].
  - rewrite Hn, Hrs, Hq, <- app_assoc. reflexivity.
  - intros H. split; [now apply Hoff|]. unfold delayChecked in Hfl.
    rewrite H, andb_false_r in Hfl. cbn [andb] in Hfl. eauto.
Qed.

Lemma scrapeLoop_net s w qs : forall k ret st fl qs' st',
  scrapeLoop ParseFloat s w k qs ret st = Done (fl, qs', st') ->
  exists n, net st' = (net st ++ n)%list /\ paired n
            /\ (LdapSyncTimeDetal s = false -> n = map request qs).
Proof.
  induction qs as [|q qs IH]; intros k ret st fl qs' st'; cbn [scrapeLoop].
  - intros [= <- <- <-]. exists []. rewrite app_nil_r. repeat split.
  - destruct (scrapeBody _ _ _ _ _ _ _) as [[[fl1 q1] st1]|] eqn:Hb; cbn [mbind go_bind]; [|discriminate].
    apply scrapeBody_net in Hb as (n1 & Hn1 & Hp1 & Hoff1).
    assert (Hreq : paired [request q]) by reflexivity.
    destruct fl1 as [r|b].
    + destruct (scrapeLoop _ _ _ _ _ _ _) as [[[fl2 qs2] st2]|] eqn:Hl; cbn [mbind go_bind]; [|discriminate].
      intros [= <- <- <-]. apply IH in Hl as (n2 & Hn2 & Hp2 & Hoff2).
      exists (request q :: n1 ++ n2)%list. split; [|split].
      * rewrite Hn2, Hn1, <- app_assoc. reflexivity.
      * apply (paired_app [request q]); [exact Hreq | now apply paired_app].
      * intros H. destruct (Hoff1 H) as [-> _]. rewrite (Hoff2 H). reflexivity.
    + intros [= <- <- <-]. exists (request q :: n1). split; [exact Hn1|]. split.
      * now apply (paired_app [request q]).
      * intros H. destruct (Hoff1 H) as [_ [r [=]]].
Qed.

(** X16. A cycle that completes after a successful dial has closed the
    connection: its traffic starts with the dial and ends with the close
    of the main connection, whether the bind failed, the loop ran to its
    end or the check against the primary ended the cycle early. *)
Theorem scrape_closes_connection (s : Scraper) (w : World) (qs qs' : list query)
    (st st' : Env) (b : bool) :
  dial w = None ->
  scrape ParseFloat s w qs st = Done (b, qs', st') ->
  exists mid,
    net st' = (net st ++ Dial (Net s) (Addr s) :: mid ++ [Close conn])%list.
Proof.
  intros Hd. unfold scrape. destruct (connect s w st) as [st0|st0] eqn:Hc.
  - destruct (scrapeLoop _ _ _ _ _ _ _) as [[[fl qs1] st1]|] eqn:Hl; cbn [mbind go_bind]; [|discriminate].
    intros [= <- <- <-]. apply scrapeLoop_net in Hl as (n & Hn & _).
    apply net_connect in Hc. exists (bindEvent s ++ n)%list.
    cbn [net Send]. rewrite Hn, Hc. unfold bindEvent.
    rewrite <- !app_assoc. reflexivity.
  - intros [= <- <- <-]. unfold connect in Hc. rewrite Hd in Hc.
    destruct (negb _ && negb _); [|discriminate].
    destruct (bind w); [|discriminate]. injection Hc as <-.
    exists [Bind conn (User s) (Pass s)]. cbn [net Send Log]. now rewrite <- !app_assoc.
Qed.

(** X17. In the traffic a completed cycle adds, the closes of the
    connection to the primary are as many as its binds: every connection
    to the primary that was opened and bound has been closed. *)
Theorem scrape_closes_primary (s : Scraper) (w : World) (qs qs' : list query)
    (st st' : Env) (b : bool) :
  scrape ParseFloat s w qs st = Done (b, qs', st') ->
  exists n,
    net st' = (net st ++ n)%list
    /\ length (List.filter isMasterBind n) = length (List.filter isMasterClose n).
Proof.
  unfold scrape. destruct (connect s w st) as [st0|st0] eqn:Hc.
  - destruct (scrapeLoop _ _ _ _ _ _ _) as [[[fl qs1] st1]|] eqn:Hl; cbn [mbind go_bind]; [|discriminate].
    intros [= <- <- <-]. apply scrapeLoop_net in Hl as (n & Hn & Hp & _).
    apply net_connect in Hc.
    exists ((Dial (Net s) (Addr s) :: bindEvent s) ++ n ++ [Close conn])%list. split.
    + cbn [net Send]. rewrite Hn, Hc. unfold bindEvent. rewrite <- !app_assoc. reflexivity.
    + apply paired_app; [unfold bindEvent; now destruct (negb _ && negb _)|].
      apply paired_app; [exact Hp | reflexivity].
  - intros [= <- <- <-]. unfold connect in Hc.
    destruct (dial w).
    + injection Hc as <-. exists [Dial (Net s) (Addr s)]. split; reflexivity.
    + destruct (negb _ && negb _); [|discriminate].
      destruct (bind w); [|discriminate]. injection Hc as <-.
      exists [Dial (Net s) (Addr s); Bind conn (User s) (Pass s); Close conn].
      split; [cbn [net Send Log]; now rewrite <- !app_assoc | reflexivity].
Qed.

(** X18. With delay checking off, a cycle that gets past dial and bind and
    completes sends exactly one search for each descriptor of the catalog,
    in catalog order, between the dial (and the bind, when credentials are
    set) and the close; nothing goes to the primary. *)
Theorem scrape_searches_catalog_in_order (s : Scraper) (w : World)
    (qs qs' : list query) (st st' : Env) (b : bool) :
  LdapSyncTimeDetal s = false ->
  dial w = None -> bind w = None ->
  scrape ParseFloat s w qs st = Done (b, qs', st') ->
  net st'
  = (net st ++ Dial (Net s) (Addr s) :: bindEvent s ++ map request qs ++ [Close conn])%list.
Proof.
  intros Hoff Hd Hb. unfold scrape. destruct (connect s w st) as [st0|st0] eqn:Hc.
  - destruct (scrapeLoop _ _ _ _ _ _ _) as [[[fl qs1] st1]|] eqn:Hl; cbn [mbind go_bind]; [|discriminate].
    intros [= <- <- <-]. apply scrapeLoop_net in Hl as (n & Hn & _ & Hn').
    apply net_connect in Hc. cbn [net Send]. rewrite Hn, Hc, (Hn' Hoff). unfold bindEvent.
    rewrite <- !app_assoc. reflexivity.
  - unfold connect in Hc. rewrite Hd, Hb in Hc. now destruct (negb _ && negb _).
Qed.

End Traffic.


(** ** The check against the primary *)

(** X19. When the first entry the primary returns does not carry the
    attribute, the check is skipped without a trace in the sink or the
    log: the round goes on with [ret] unchanged, after a connection to
    the primary that was opened and closed. *)
Theorem delayCheck_missing_attribute (s : Scraper) (w : World) (k : nat) (q : query)
    (ret : bool) (st : Env) (entry : Entry) (rest : list Entry) :
  delayChecked s q = true ->
  masterDial w k = None -> masterBind w k = None ->
  masterSearch w k = Ok (entry :: rest) ->
  GetAttributeValue entry (searchAttr q) = "" ->
  exists st',
    delayCheck s w k q ret st = Done (Continue ret, st')
    /\ gauges st' = gauges st
    /\ logs st' = logs st
    /\ net st'
       = (net st ++ [Dial (Net s) (LdapSyncMasterAddr s); Bind masterConn (User s) (Pass s);
                     Search masterConn (q_baseDN q) (searchFilter q) (searchAttr q);
                     Close masterConn])%list.
Proof.
  intros Hc Hd Hb Hs Hv. unfold delayChecked in Hc. apply andb_prop in Hc as [Ha Hon].
  unfold delayCheck, queryMasterContext. rewrite Ha, Hon, Hd, Hb, Hs, Hv.
  cbn [String.eqb]. eexists. split; [reflexivity|].
  cbn [gauges logs net Send]. repeat split. now rewrite <- !app_assoc.
Qed.

(** X20. The check reads the first entry of the primary's answer and no
    other: two answers with the same first entry give the same outcome,
    the same sink and the same log. *)
Theorem delayCheck_first_entry_only (s : Scraper) (w w' : World) (k : nat) (q : query)
    (ret : bool) (st : Env) (entry : Entry) (rest rest' : list Entry) :
  masterDial w' k = masterDial w k ->
  masterBind w' k = masterBind w k ->
  masterSearch w k = Ok (entry :: rest) ->
  masterSearch w' k = Ok (entry :: rest') ->
  delayCheck s w' k q ret st = delayCheck s w k q ret st.
Proof.
  intros Hd Hb Hs Hs'. unfold delayCheck, queryMasterContext.
  rewrite Hd, Hb, Hs, Hs'.
  destruct (String.eqb _ _); [|reflexivity].
  destruct (LdapSyncTimeDetal s); [|reflexivity].
  destruct (masterDial w k); [reflexivity|].
  destruct (masterBind w k); reflexivity.
Qed.

(** X21. The check against the primary panics exactly when it is made,
    dial, bind and search succeed, and the first entry carries a value
    whose first field parses as generalized time with fewer than three
    fields in all: the server id is then read out of range. *)
Theorem delayCheck_panics_iff (s : Scraper) (w : World) (k : nat) (q : query)
    (ret : bool) (st : Env) :
  (exists msg, delayCheck s w k q ret st = Panic msg) <->
  (delayChecked s q = true
   /\ masterDial w k = None /\ masterBind w k = None
   /\ exists entry rest v0 more,
        masterSearch w k = Ok (entry :: rest)
        /\ GetAttributeValue entry (searchAttr q) <> ""
        /\ Split (GetAttributeValue entry (searchAttr q)) sharp = v0 :: more
        /\ time.Parse_layout v0 <> None
        /\ (length more < 2)%nat).
Proof.
  unfold delayCheck, delayChecked, queryMasterContext, time.Parse.
  destruct (String.eqb _ _); [|split; [now intros [? [=]] | now intros ([=] & _)]].
  destruct (LdapSyncTimeDetal s); [|split; [now intros [? [=]] | now intros ([=] & _)]].
  destruct (masterDial w k); [split; [now intros [? [=]] | now intros (_ & [=] & _)]|].
  destruct (masterBind w k); [split; [now intros [? [=]] | now intros (_ & _ & [=] & _)]|].
  destruct (masterSearch w k) as [[|entry rest]|e].
  - split; [now intros [? [=]] | now intros (_ & _ & _ & ? & ? & ? & ? & [=] & _)].
  - destruct (String.eqb_spec (GetAttributeValue entry (searchAttr q)) "") as [He|Hne].
    + split; [now intros [? [=]]|].
      intros (_ & _ & _ & ? & ? & ? & ? & [= <- <-] & Hn & _). contradiction.
    + destruct (Split _ sharp) as [|v0 more] eqn:HS; [now apply Split_not_nil in HS|].
      cbn [index nth_error mbind go_bind].
      destruct (time.Parse_layout v0) as [t|] eqn:Hp.
      * destruct more as [|v1 [|v2 more]]; cbn [index nth_error mbind go_bind].
        -- split; [|eauto]. intros _. repeat split.
           exists entry, rest, v0, []. repeat split; try congruence. cbn; lia.
        -- split; [|eauto]. intros _. repeat split.
           exists entry, rest, v0, [v1]. repeat split; try congruence. cbn; lia.
        -- split; [now intros [? [=]]|].
           intros (_ & _ & _ & ? & ? & ? & ? & [= <- <-] & _ & HS' & _ & Hl).
           rewrite HS in HS'. injection HS' as <- <-. cbn [length] in Hl. lia.
      * split; [now intros [? [=]]|].
        intros (_ & _ & _ & ? & ? & ? & ? & [= <- <-] & _ & HS' & Hp' & _).
        rewrite HS in HS'. injection HS' as <- <-. congruence.
  - split; [now intros [? [=]] | now intros (_ & _ & _ & ? & ? & ? & ? & [=] & _)].
Qed.

Section Rounds.

Variable ParseFloat : string -> float64 * option error.

(** X22. A failed check against the primary ends the cycle on the spot:
    the loop is left with [false] in the state the round of that query
    leaves, and the descriptors after it are neither searched nor
    touched. *)
Theorem scrapeLoop_stops_at_primary_failure
    (s : Scraper) (w : World) (k : nat) (q : query) (post qs' : list query)
    (ret : bool) (st st' : Env) (fl : flow) :
  delayChecked s q = true ->
  primaryCheckFails w k q = true ->
  scrapeLoop ParseFloat s w k (q :: post) ret st = Done (fl, qs', st') ->
  fl = Return false
  /\ exists q',
       qs' = q' :: post
       /\ scrapeBody ParseFloat s w k q ret st = Done (Return false, q', st').
Proof.
  intros Hc Hp. cbn [scrapeLoop].
  destruct (scrapeBody _ _ _ _ _ _ _) as [[[fl1 q1] st1]|] eqn:Hb; cbn [mbind go_bind]; [|discriminate].
  pose proof (scrapeBody_frame ParseFloat _ _ _ _ _ _ _ _ _ Hb) as (_ & _ & Hfl).
  rewrite Hc, Hp in Hfl. cbn [andb] in Hfl. subst fl1.
  intros [= <- <- <-]. split; [reflexivity|]. now exists q1.
Qed.

Lemma scrapeLoop_plain s w qs : forall k ret st,
  Forall plain qs ->
  exists r st', scrapeLoop ParseFloat s w k qs ret st = Done (Continue r, qs, st').
Proof.
  induction qs as [|q qs IH]; intros k ret st H; cbn [scrapeLoop]; [eauto|].
  inversion H as [|? ? [Hf Ha] Hrest]; subst.
  apply String.eqb_neq in Ha.
  rewrite (scrapeBody_plain ParseFloat s w k q ret st Hf Ha). cbn [mbind go_bind].
  destruct (IH (S k) (ret && negb (searchFails w k)) (plainRound ParseFloat w k q st) Hrest)
    as (r & st' & ->).
  cbn [mbind go_bind]. eauto.
Qed.

(** X23. A cycle over plain numeric descriptors always completes, whatever
    the directory answers, and leaves the catalog exactly as it was; it
    succeeds if and only if the dial, the bind (when credentials are set)
    and every search succeeded. *)
Theorem scrape_plain_catalog (s : Scraper) (w : World) (qs : list query) (st : Env) :
  Forall plain qs ->
  exists b st',
    scrape ParseFloat s w qs st = Done (b, qs, st')
    /\ (b = true <->
        dial w = None
        /\ (bindEvent s <> [] -> bind w = None)
        /\ forall k, (k < length qs)%nat -> searchFails w k = false).
Proof.
  intros H. unfold scrape.
  pose proof (connect_fails s w st) as Hcf.
  destruct (connect s w st) as [st0|st0].
  - destruct (scrapeLoop_plain s w qs 0%nat true st0 H) as (r & st' & Hl).
    rewrite Hl. cbn [mbind go_bind returned]. do 2 eexists. split; [reflexivity|].
    pose proof (scrapeLoop_returned ParseFloat _ _ _ _ _ _ _ _ _ Hl) as Hr.
    cbn [returned Nat.add] in Hr.
    assert (Hok : dial w = None /\ (bindEvent s <> [] -> bind w = None)).
    { split.
      - destruct (dial w) eqn:E; [|reflexivity].
        assert (exists st1, @inl Env Env st0 = inr st1) as [? [=]] by (apply Hcf; left; congruence).
      - intros Hb. destruct (bind w) eqn:E; [|reflexivity].
        assert (exists st1, @inl Env Env st0 = inr st1) as [? [=]].
        { apply Hcf. right. unfold bindEvent in Hb.
          destruct (negb _ && negb _); [split; [reflexivity | congruence] | congruence]. } }
    split.
    + intros ->. split; [apply Hok|]. split; [apply Hok|].
      intros i Hi. destruct (searchFails w i) eqn:E; [|reflexivity].
      assert (true = false) as [=]. apply Hr. right. left. eauto.
    + intros (_ & _ & Hall). destruct r; [reflexivity|].
      destruct Hr as [Hr _]. destruct (Hr eq_refl) as [[=]|[(i & Hi & Hs)|(i & q & Hq & Hd & _)]].
      * rewrite (Hall i Hi) in Hs. discriminate.
      * apply list_elem_of_lookup_2 in Hq.
        rewrite Forall_forall in H. destruct (H q Hq) as [_ Ha].
        unfold delayChecked in Hd. apply andb_prop in Hd as [Hd _].
        apply String.eqb_eq in Hd. contradiction.
  - do 2 eexists. split; [reflexivity|]. split; [discriminate|].
    intros (Hd & Hb & _). exfalso.
    destruct Hcf as [Hcf _]. destruct Hcf as [Hx|[Hx1 Hx2]]; [eauto|congruence|].
    apply Hx2, Hb. unfold bindEvent. rewrite Hx1. discriminate.
Qed.

End Rounds.


(** ** The further properties on examples *)

Lemma parseContextCSN_reads_four_fields_witness :
  parseContextCSN strconv.ParseFloat "20211001120000Z#5#node1#2#and#more" [] emptyEnv
  = Done ((float64_of_int 1633089600, float64_of_int 5, "node1", float64_of_int 2, None),
          emptyEnv).
Proof.
  apply (parseContextCSN_reads_four_fields strconv.ParseFloat
           "20211001120000Z#5#node1#2#and#more" "20211001120000Z" "5" "node1" "2"
           ["and"; "more"] (time.mkTime 2021 10 1 12 0 0 0)
           (float64_of_int 5) (float64_of_int 2) [] emptyEnv);
    reflexivity.
Defined.

Lemma setReplicationValue_bad_time_witness :
  exists e,
    setReplicationValue strconv.ParseFloat [csnEntry "yesterday#5#node1#2"]
      (replicationQuery peer) emptyEnv
    = Done (replicationQuery peer,
            Log WarnLevel
              [("filter", "(objectClass=*)"); ("attr", "contextCSN");
               ("value", "yesterday#5#node1#2"); ("error", e)]
              "unexpected gt value" emptyEnv).
Proof.
  apply (setReplicationValue_bad_time strconv.ParseFloat (replicationQuery peer)
           (csnEntry "yesterday#5#node1#2") [] "yesterday#5#node1#2" "yesterday"
           ["5"; "node1"; "2"] emptyEnv);
    try reflexivity.
  discriminate.
Defined.

Lemma setReplicationValue_bad_mod_witness :
  setReplicationValue strconv.ParseFloat [csnEntry "20211001120000Z#5#node1#x"]
    (replicationQuery peer) emptyEnv
  = Done (replicationQuery peer,
          Log WarnLevel
            [("filter", "(objectClass=*)"); ("attr", "contextCSN");
             ("value", "20211001120000Z#5#node1#x"); ("error", "invalid syntax")]
            "unexpected mod value" emptyEnv).
Proof.
  apply (setReplicationValue_bad_mod strconv.ParseFloat (replicationQuery peer)
           (csnEntry "20211001120000Z#5#node1#x") [] "20211001120000Z#5#node1#x"
           "20211001120000Z" "5" "node1" "x" [] (time.mkTime 2021 10 1 12 0 0 0)
           (float64_of_int 5) float64_zero "invalid syntax" emptyEnv);
    try reflexivity.
  discriminate.
Defined.

Lemma setReplicationValue_last_entry_witness :
  exists q' st',
    setReplicationValue strconv.ParseFloat
      [bareEntry peer; csnEntry "20211001120000Z#5#node1#2"] (replicationQuery peer) emptyEnv
    = Done (q', st')
    /\ descr q' = descr (replicationQuery peer)
    /\ RepolicateResult q' = float64_of_int 1633089600
    /\ point st' monitorReplicationGauge ["node1"; "gt"] = Some (float64_of_int 1633089600)
    /\ point st' monitorReplicationGauge ["node1"; "count"] = Some (float64_of_int 5)
    /\ point st' monitorReplicationGauge ["node1"; "mod"] = Some (float64_of_int 2).
Proof.
  apply (setReplicationValue_last_entry strconv.ParseFloat (replicationQuery peer)
           (replicationQuery peer) [bareEntry peer]
           (csnEntry "20211001120000Z#5#node1#2") emptyEnv emptyEnv
           "20211001120000Z#5#node1#2" "20211001120000Z" "5" "node1" "2" []
           (time.mkTime 2021 10 1 12 0 0 0) (float64_of_int 5) (float64_of_int 2));
    try reflexivity.
  discriminate.
Defined.

Lemma setReplicationValue_returns_witness :
  exists q' st',
    setReplicationValue strconv.ParseFloat [csnEntry "a#b#c#d"; bareEntry peer]
      (replicationQuery peer) emptyEnv
    = Done (q', st')
    /\ descr q' = descr (replicationQuery peer)
    /\ silent emptyEnv st'.
Proof.
  apply (setReplicationValue_returns strconv.ParseFloat
           [csnEntry "a#b#c#d"; bareEntry peer] (replicationQuery peer) emptyEnv).
  constructor; [right; cbn; lia|].
  constructor; [left; reflexivity|].
  constructor.
Defined.

Lemma setReplicationDelayValue_returns_witness :
  exists st',
    setReplicationDelayValue [csnEntry "20211001120000Z#5#node1"] (replicationQuery peer)
      emptyEnv
    = Done st'
    /\ silent emptyEnv st'.
Proof.
  apply (setReplicationDelayValue_returns
           [csnEntry "20211001120000Z#5#node1"] (replicationQuery peer) emptyEnv).
  constructor; [right; cbn; lia|].
  constructor.
Defined.

Lemma Start_keeps_catalog_witness :
  exists g',
    Start strconv.ParseFloat exporter [quiet; refusing 0 "timeout"] boot = Done g'
    /\ length (catalog g') = 5%nat.
Proof.
  eexists. split; [vm_compute; reflexivity|].
  apply (Start_keeps_catalog strconv.ParseFloat exporter [quiet; refusing 0 "timeout"] boot).
  vm_compute. reflexivity.
Defined.


Lemma Start_counts_ticks_witness :
  exists g',
    Start strconv.ParseFloat exporter [quiet; refusing 0 "timeout"] boot = Done g'
    /\ (counted (env g') "ok" + counted (env g') "fail" = 2)%nat.
Proof.
  eexists. split; [vm_compute; reflexivity|].
  apply (Start_counts_ticks strconv.ParseFloat exporter [quiet; refusing 0 "timeout"] boot).
  vm_compute. reflexivity.
Defined.

Lemma Start_catalogCaches_witness :
  exists g',
    Start strconv.ParseFloat exporter [quiet; refusing 0 "timeout"] boot = Done g'
    /\ catalogCaches (catalog g').
Proof.
  eexists. split; [vm_compute; reflexivity|].
  apply (Start_catalogCaches strconv.ParseFloat exporter [quiet; refusing 0 "timeout"]).
  vm_compute. reflexivity.
Defined.

Lemma runOnce_connect_failure_witness :
  exists g',
    runOnce strconv.ParseFloat exporter (unreachable "connection refused") boot = Done g'
    /\ catalog g' = queries
    /\ gauges (env g') = ∅
    /\ counted (env g') "fail" = 1%nat
    /\ counted (env g') "ok" = 0%nat
    /\ net (env g') = [Dial "tcp" "localhost:389"].
Proof.
  apply (runOnce_connect_failure strconv.ParseFloat exporter
           (unreachable "connection refused") boot).
  left. discriminate.
Defined.

Lemma scrape_closes_connection_witness :
  exists b qs' st',
    scrape strconv.ParseFloat exporter quiet queries emptyEnv = Done (b, qs', st')
    /\ exists mid, net st' = (Dial "tcp" "localhost:389" :: mid ++ [Close conn])%list.
Proof.
  do 3 eexists. split; [vm_compute; reflexivity|].
  eapply (scrape_closes_connection strconv.ParseFloat exporter quiet queries _ emptyEnv).
  - reflexivity.
  - vm_compute. reflexivity.
Defined.

Lemma scrape_closes_primary_witness :
  exists b qs' st',
    scrape strconv.ParseFloat exporterDelay (rejecting "Invalid Credentials")
      (queries ++ [replicationQuery peer]) emptyEnv
    = Done (b, qs', st')
    /\ exists n,
         net st' = n
         /\ length (List.filter isMasterBind n) = length (List.filter isMasterClose n).
Proof.
  do 3 eexists. split; [vm_compute; reflexivity|].
  eapply (scrape_closes_primary strconv.ParseFloat exporterDelay
            (rejecting "Invalid Credentials") (queries ++ [replicationQuery peer]) _ emptyEnv).
  vm_compute. reflexivity.
Defined.

Lemma scrape_searches_catalog_in_order_witness :
  exists b qs' st',
    scrape strconv.ParseFloat exporter quiet (queries ++ [replicationQuery peer]) emptyEnv
    = Done (b, qs', st')
    /\ net st'
       = [Dial "tcp" "localhost:389";
          request objectsQuery; request countersQuery;
          request operationsQuery; request operationsQuery;
          request (replicationQuery peer); Close conn].
Proof.
  do 3 eexists. split; [vm_compute; reflexivity|].
  eapply (scrape_searches_catalog_in_order strconv.ParseFloat exporter quiet
            (queries ++ [replicationQuery peer]) _ emptyEnv).
  - reflexivity.
  - reflexivity.
  - reflexivity.
  - vm_compute. reflexivity.
Defined.

Lemma delayCheck_missing_attribute_witness :
  exists st',
    delayCheck exporterDelay (replicating 4 [] [bareEntry peer]) 4 (replicationQuery peer)
      true emptyEnv
    = Done (Continue true, st')
    /\ gauges st' = ∅
    /\ logs st' = []
    /\ net st'
       = [Dial "tcp" "primary:389"; Bind masterConn "" "";
          Search masterConn peer "(objectClass=*)" "contextCSN"; Close masterConn].
Proof.
  apply (delayCheck_missing_attribute exporterDelay (replicating 4 [] [bareEntry peer]) 4
           (replicationQuery peer) true emptyEnv (bareEntry peer) []);
    reflexivity.
Defined.

Lemma delayCheck_first_entry_only_witness :
  delayCheck exporterDelay
    (replicating 4 [] [csnEntry "19700101001650Z#0#000#0"; csnEntry "not a token"])
    4 (replicationQuery peer) true emptyEnv
  = delayCheck exporterDelay (replicating 4 [] [csnEntry "19700101001650Z#0#000#0"])
      4 (replicationQuery peer) true emptyEnv.
Proof.
  apply (delayCheck_first_entry_only exporterDelay
           (replicating 4 [] [csnEntry "19700101001650Z#0#000#0"])
           (replicating 4 [] [csnEntry "19700101001650Z#0#000#0"; csnEntry "not a token"])
           4 (replicationQuery peer) true emptyEnv
           (csnEntry "19700101001650Z#0#000#0") [] [csnEntry "not a token"]);
    reflexivity.
Defined.

Lemma scrapeLoop_stops_at_primary_failure_witness :
  exists fl qs' st',
    scrapeLoop strconv.ParseFloat exporterDelay (rejecting "Invalid Credentials") 4
      [replicationQuery peer; replicationQuery "dc=example,dc=org"] true emptyEnv
    = Done (fl, qs', st')
    /\ fl = Return false
    /\ exists q',
         qs' = [q'; replicationQuery "dc=example,dc=org"]
         /\ scrapeBody strconv.ParseFloat exporterDelay (rejecting "Invalid Credentials") 4
              (replicationQuery peer) true emptyEnv
            = Done (Return false, q', st').
Proof.
  do 3 eexists. split; [vm_compute; reflexivity|].
  eapply (scrapeLoop_stops_at_primary_failure strconv.ParseFloat exporterDelay
            (rejecting "Invalid Credentials") 4 (replicationQuery peer)
            [replicationQuery "dc=example,dc=org"] _ true emptyEnv).
  - reflexivity.
  - reflexivity.
  - vm_compute. reflexivity.
Defined.

Lemma scrape_plain_catalog_witness :
  exists b st',
    scrape strconv.ParseFloat exporter (refusing 2 "timeout") queries emptyEnv
    = Done (b, queries, st')
    /\ (b = true <->
        dial (refusing 2 "timeout") = None
        /\ (bindEvent exporter <> [] -> bind (refusing 2 "timeout") = None)
        /\ forall k, (k < length queries)%nat -> searchFails (refusing 2 "timeout") k = false).
Proof.
  apply (scrape_plain_catalog strconv.ParseFloat exporter (refusing 2 "timeout")
           queries emptyEnv).
  repeat constructor; discriminate.
Defined.


(** ** What a cycle writes to the sink *)

Lemma wrote_same delay st st' : gauges st' = gauges st -> wrote delay st st'.
Proof. intros H. exists []. split; [exact H | constructor]. Qed.

Lemma wrote_trans delay st1 st2 st3 :
  wrote delay st1 st2 -> wrote delay st2 st3 -> wrote delay st1 st3.
Proof.
  intros (ws & H & Hk) (ws' & H' & Hk'). exists (ws ++ ws')%list. split.
  - unfold written in *. now rewrite fold_left_app, <- H.
  - now apply Forall_app.
Qed.

Lemma wrote_Set delay g lvs v st :
  kindOK delay (fqName g, lvs) -> wrote delay st (Set_ g lvs v st).
Proof. intros H. exists [(fqName g, lvs, v)]. split; [reflexivity | now constructor]. Qed.

Lemma written_retains ws : forall m key,
  m !! key <> None -> written ws m !! key <> None.
Proof.
  induction ws as [|w ws IH]; intros m key H; [exact H|].
  cbn [written fold_left]. apply IH.
  destruct (decide (fst w = key)) as [->|Hne].
  - now rewrite lookup_insert_eq.
  - now rewrite lookup_insert_ne.
Qed.

Lemma written_other ws key : forall m,
  Forall (fun w => fst w <> key) ws -> written ws m !! key = m !! key.
Proof.
  induction ws as [|w ws IH]; intros m H; [reflexivity|].
  inversion H; subst. cbn [written fold_left].
  fold (written ws (<[fst w := snd w]> m)). rewrite IH by assumption.
  now apply lookup_insert_ne.
Qed.

Lemma wrote_from delay st st1 st' :
  gauges st1 = gauges st -> wrote delay st1 st' -> wrote delay st st'.
Proof. intros H (ws & Hw & Hk). exists ws. split; [now rewrite <- H | exact Hk]. Qed.

Lemma wrote_to delay st st1 st' :
  wrote delay st st1 -> gauges st' = gauges st1 -> wrote delay st st'.
Proof. intros (ws & Hw & Hk) H. exists ws. split; [now rewrite H | exact Hk]. Qed.

Section Writes.

Variable ParseFloat : string -> float64 * option error.

Lemma setValue_wrote delay entries q : forall st,
  wrote delay st (setValue ParseFloat entries q st).
Proof.
  induction entries as [|entry entries IH]; intros st; cbn [setValue].
  - now apply wrote_same.
  - destruct (String.eqb _ ""); [apply IH|].
    destruct (ParseFloat _) as [num [e|]]; [apply IH|].
    eapply wrote_trans; [|apply IH]. now apply wrote_Set.
Qed.

Lemma setReplicationValue_wrote delay entries : forall q st q' st',
  setReplicationValue ParseFloat entries q st = Done (q', st') -> wrote delay st st'.
Proof.
  induction entries as [|entry entries IH]; intros q st q' st'; cbn [setReplicationValue].
  - intros [= <- <-]. now apply wrote_same.
  - destruct (String.eqb _ ""); [apply IH|].
    destruct (parseContextCSN _ _ _ _) as [[[[[[gt count] sid] mod_] err] st1]|] eqn:Hp;
      cbn [mbind go_bind]; [|discriminate].
    apply parseContextCSN_gauges in Hp.
    destruct err as [e|]; intros H; apply IH in H; apply (wrote_from _ _ st1 _ Hp).
    + exact H.
    + eapply wrote_trans; [|exact H].
      eapply wrote_trans; [eapply wrote_trans|]; apply wrote_Set; cbn; auto.
Qed.

Lemma setReplicationDelayValue_wrote delay entries q : forall st st',
  setReplicationDelayValue entries q st = Done st' -> wrote delay st st'.
Proof.
  induction entries as [|entry entries IH]; intros st st'; cbn [setReplicationDelayValue].
  - intros [= <-]. now apply wrote_same.
  - destruct (String.eqb _ ""); [apply IH|].
    destruct (index _ 0) as [v0|]; cbn [mbind go_bind]; [|discriminate].
    destruct (time.Parse v0) as [t [e|]].
    + intros H. apply IH in H. eapply wrote_from; [|exact H]. reflexivity.
    + destruct (index _ 2) as [sid|]; cbn [mbind go_bind]; [|discriminate].
      intros H. apply IH in H. eapply wrote_trans; [|exact H]. apply wrote_Set; cbn; auto.
Qed.

Lemma scrapeQuery_wrote delay w k q st err q1 st1 :
  scrapeQuery ParseFloat w k q st = Done (err, q1, st1) -> wrote delay st st1.
Proof.
  unfold scrapeQuery, call_setData. destruct (search w k) as [entries|e].
  - destruct (setData q).
    + intros [= _ _ <-]. eapply wrote_from; [|apply setValue_wrote]. reflexivity.
    + destruct (setReplicationValue _ _ _ _) as [[q2 st2]|] eqn:H; cbn [mbind go_bind]; [|discriminate].
      intros [= _ _ <-]. eapply wrote_from; [|eapply setReplicationValue_wrote; exact H].
      reflexivity.
    + destruct (setReplicationDelayValue _ _ _) as [st2|] eqn:H; cbn [mbind go_bind]; [|discriminate].
      intros [= _ _ <-]. eapply wrote_from; [|eapply setReplicationDelayValue_wrote; exact H].
      reflexivity.
  - intros [= _ _ <-]. now apply wrote_same.
Qed.

Lemma delayCheck_wrote s w k q ret st fl st' :
  delayCheck s w k q ret st = Done (fl, st') -> wrote (LdapSyncTimeDetal s) st st'.
Proof.
  unfold delayCheck.
  destruct (String.eqb _ _); [|intros [= _ <-]; now apply wrote_same].
  destruct (LdapSyncTimeDetal s) eqn:Hon; [|intros [= _ <-]; now apply wrote_same].
  assert (Hm : gauges (snd (queryMasterContext s w k q st)) = gauges st).
  { unfold queryMasterContext. destruct (masterDial w k); [|destruct (masterBind w k)]; reflexivity. }
  destruct (queryMasterContext s w k q st) as [sr st4]; cbn [snd] in Hm.
  destruct sr as [[|entry rest]|e]; try (intros [= _ <-]; apply wrote_same; exact Hm).
  destruct (String.eqb _ ""); [intros [= _ <-]; apply wrote_same; exact Hm|].
  destruct (index _ 0) as [v0|]; cbn [mbind go_bind]; [|discriminate].
  destruct (time.Parse v0) as [t [e|]]; [intros [= _ <-]; apply wrote_same; exact Hm|].
  destruct (index _ 2) as [sid|]; cbn [mbind go_bind]; [|discriminate].
  intros [= _ <-]. apply (wrote_from _ _ st4 _ Hm). apply wrote_Set. cbn. auto.
Qed.

Lemma scrapeBody_wrote s w k q ret st fl q' st' :
  scrapeBody ParseFloat s w k q ret st = Done (fl, q', st') ->
  wrote (LdapSyncTimeDetal s) st st'.
Proof.
  unfold scrapeBody.
  destruct (scrapeQuery _ _ _ _ _) as [[[err q1] st1]|] eqn:Hq; cbn [mbind go_bind]; [|discriminate].
  apply (scrapeQuery_wrote (LdapSyncTimeDetal s)) in Hq.
  set (rs := match err with Some _ => _ | None => _ end).
  assert (Hrs : gauges (snd rs) = gauges st1) by (subst rs; now destruct err).
  destruct rs as [r st2]; cbn [snd] in Hrs.
  destruct (delayCheck _ _ _ _ _ _) as [[fl1 st3]|] eqn:Hc; cbn [mbind go_bind]; [|discriminate].
  intros [= _ _ <-]. apply delayCheck_wrote in Hc.
  eapply wrote_trans; [exact Hq|]. exact (wrote_from _ _ _ _ Hrs Hc).
Qed.

Lemma scrapeLoop_wrote s w qs : forall k ret st fl qs' st',
  scrapeLoop ParseFloat s w k qs ret st = Done (fl, qs', st') ->
  wrote (LdapSyncTimeDetal s) st st'.
Proof.
  induction qs as [|q qs IH]; intros k ret st fl qs' st'; cbn [scrapeLoop].
  - intros [= _ _ <-]. now apply wrote_same.
  - destruct (scrapeBody _ _ _ _ _ _ _) as [[[fl1 q1] st1]|] eqn:Hb; cbn [mbind go_bind]; [|discriminate].
    apply scrapeBody_wrote in Hb. destruct fl1 as [r|b].
    + destruct (scrapeLoop _ _ _ _ _ _ _) as [[[fl2 qs2] st2]|] eqn:Hl; cbn [mbind go_bind]; [|discriminate].
      intros [= _ _ <-]. eapply wrote_trans; [exact Hb | eapply IH; exact Hl].
    + now intros [= _ _ <-].
Qed.

Lemma scrape_wrote s w qs st b qs' st' :
  scrape ParseFloat s w qs st = Done (b, qs', st') ->
  wrote (LdapSyncTimeDetal s) st st'.
Proof.
  unfold scrape.
  assert (Hc : match connect s w st with inl st0 | inr st0 => gauges st0 = gauges st end).
  { unfold connect. destruct (dial w); [reflexivity|].
    destruct (negb _ && negb _); [destruct (bind w)|]; reflexivity. }
  destruct (connect s w st) as [st0|st0].
  - destruct (scrapeLoop _ _ _ _ _ _ _) as [[[fl qs1] st1]|] eqn:Hl; cbn [mbind go_bind]; [|discriminate].
    intros [= _ _ <-]. apply scrapeLoop_wrote in Hl.
    apply (wrote_from _ _ st0 _ Hc). eapply wrote_to; [exact Hl | reflexivity].
  - intros [= _ _ <-]. apply wrote_same. exact Hc.
Qed.

Lemma ticks_wrote s ws : forall g g',
  ticks ParseFloat s ws g = Done g' -> wrote (LdapSyncTimeDetal s) (env g) (env g').
Proof.
  induction ws as [|w ws IH]; intros g g'; cbn [ticks].
  - intros [= <-]. now apply wrote_same.
  - destruct (runOnce _ _ _ _) as [g1|] eqn:Hr; cbn [mbind go_bind]; [|discriminate].
    intros H. apply IH in H. eapply wrote_trans; [|exact H]. unfold runOnce in Hr.
    destruct (scrape _ _ _ _ _) as [[[b qs] st]|] eqn:Hs; cbn [mbind go_bind] in Hr; [|discriminate].
    injection Hr as <-. cbn [env]. apply scrape_wrote in Hs.
    eapply wrote_to; [exact Hs | reflexivity].
Qed.

(** X24. The process never deletes a point: every point of the sink when
    [Start] is called is still there, under the same metric and the same
    label values, after any number of cycles, also when its entry is no
    longer found. *)
Theorem Start_keeps_points (s : Scraper) (ws : list World) (g g' : State)
    (m : GaugeVec) (lvs : list string) :
  Start ParseFloat s ws g = Done g' ->
  point (env g) m lvs <> None ->
  point (env g') m lvs <> None.
Proof.
  unfold Start. intros H Hp. apply ticks_wrote in H as (writes & Hw & _).
  cbn [env gauges Log] in Hw. unfold point. rewrite Hw. now apply written_retains.
Qed.

(** X25. With delay checking off no cycle writes a delay point: the points
    under (server id, ["delay"]) of every metric are after the cycle what
    they were before. *)
Theorem scrape_writes_no_delay (s : Scraper) (w : World) (qs qs' : list query)
    (st st' : Env) (b : bool) (m : GaugeVec) (sid : string) :
  LdapSyncTimeDetal s = false ->
  scrape ParseFloat s w qs st = Done (b, qs', st') ->
  point st' m [sid; "delay"] = point st m [sid; "delay"].
Proof.
  intros Hoff H. apply scrape_wrote in H as (writes & Hw & Hk). rewrite Hoff in Hk.
  unfold point. rewrite Hw. apply written_other.
  eapply Forall_impl; [exact Hk|]. intros [[n l] v] Hok Hkey.
  cbn in Hkey. injection Hkey as -> ->.
  cbn in Hok. destruct Hok as [H|[H|[H|[H _]]]]; discriminate.
Qed.

(** X26. Whatever a cycle writes, it writes under a DN, or under a server
    id and one of the kinds gt, count, mod and, with delay checking on,
    delay: a point under any other label values is after the cycle what it
    was before. *)
Theorem scrape_writes_known_kinds (s : Scraper) (w : World) (qs qs' : list query)
    (st st' : Env) (b : bool) (m : GaugeVec) (lvs : list string) :
  scrape ParseFloat s w qs st = Done (b, qs', st') ->
  ~ kindOK (LdapSyncTimeDetal s) (fqName m, lvs) ->
  point st' m lvs = point st m lvs.
Proof.
  intros H Hn. apply scrape_wrote in H as (writes & Hw & Hk).
  unfold point. rewrite Hw. apply written_other.
  eapply Forall_impl; [exact Hk|]. intros [[n l] v] Hok Hkey.
  cbn in Hkey. injection Hkey as -> ->. now apply Hn.
Qed.

End Writes.

Lemma Start_keeps_points_witness :
  exists g',
    Start strconv.ParseFloat exporter [quiet; quiet]
      (mkState queries (Set_ monitorOperationGauge ["cn=Gone"] (float64_of_int 3) emptyEnv))
    = Done g'
    /\ point (env g') monitorOperationGauge ["cn=Gone"] <> None.
Proof.
  eexists. split; [vm_compute; reflexivity|].
  apply (Start_keeps_points strconv.ParseFloat exporter [quiet; quiet]
           (mkState queries (Set_ monitorOperationGauge ["cn=Gone"] (float64_of_int 3) emptyEnv))).
  - vm_compute. reflexivity.
  - vm_compute. discriminate.
Defined.

Lemma scrape_writes_no_delay_witness :
  exists b qs' st',
    scrape strconv.ParseFloat exporter quiet (queries ++ [replicationQuery peer]) emptyEnv
    = Done (b, qs', st')
    /\ point st' monitorReplicationGauge ["001"; "delay"]
       = point emptyEnv monitorReplicationGauge ["001"; "delay"].
Proof.
  do 3 eexists. split; [vm_compute; reflexivity|].
  eapply (scrape_writes_no_delay strconv.ParseFloat exporter quiet
            (queries ++ [replicationQuery peer]) _ emptyEnv).
  - reflexivity.
  - vm_compute. reflexivity.
Defined.

Lemma scrape_writes_known_kinds_witness :
  exists b qs' st',
    scrape strconv.ParseFloat exporterDelay quiet (queries ++ [replicationQuery peer]) emptyEnv
    = Done (b, qs', st')
    /\ point st' monitorReplicationGauge ["001"; "lag"]
       = point emptyEnv monitorReplicationGauge ["001"; "lag"].
Proof.
  do 3 eexists. split; [vm_compute; reflexivity|].
  eapply (scrape_writes_known_kinds strconv.ParseFloat exporterDelay quiet
            (queries ++ [replicationQuery peer]) _ emptyEnv).
  - vm_compute. reflexivity.
  - cbn. intros [H|[H|[H|[_ H]]]]; discriminate.
Defined.
